(** * LocalStack toolkit: the status-derivation core

    A shallow embedding of
    - [src/utils/once-immediate.ts]  (the coalescing scheduler),
    - [src/utils/emitter.ts]         (the change-notifying value cell),
    - [src/utils/localstack-instance.ts] (health poll loop and instance
      status tracker),
    together with the properties their specification states.

    JavaScript is single threaded: the only concurrency is the order in
    which the event loop runs queued tasks.  Every module below therefore
    carries its own queues (immediates, promise reaction jobs, timers) in
    its world, closures handed to the runtime are named by constructors of
    small task types, and the environment picks which enabled task runs
    next through an [Event].  An execution is a list of events.  The
    environment is free to order tasks in ways Node never would (a macrotask
    before a ready reaction job): what holds of every execution here holds
    of every execution there. *)

From stdpp Require Import base option list.

Set Default Proof Using "Type".

(** ** What a JavaScript call can do *)

Module Runtime.

(** How a promise settles. *)
Inductive Settle : Set := Fulfils | Rejects.

(** How a call to a function of type [() => T | Promise<T>] completes: it
    returns a plain value, throws, returns a promise that is already
    settled, or returns a promise that is still pending. *)
Inductive Completion : Set :=
| Returns
| Throws
| ReturnsSettled (s : Settle)
| ReturnsPending.

(** How a call to a [void] method ends for its caller. *)
Inductive Exit : Set := Done | Raised.

(** [NodeJS.Immediate]: the handle [setImmediate] returns.  Only its
    truthiness is ever inspected. *)
Inductive Immediate : Set := ImmediateHandle.

(** [NodeJS.Timeout]: handles of [setTimeout], told apart by
    [clearTimeout]. *)
Definition Timeout : Set := nat.

#[global] Instance Settle_eq_dec : EqDecision Settle.
Proof. solve_decision. Defined.

#[global] Instance Completion_eq_dec : EqDecision Completion.
Proof. solve_decision. Defined.

#[global] Instance Exit_eq_dec : EqDecision Exit.
Proof. solve_decision. Defined.

#[global] Instance Immediate_eq_dec : EqDecision Immediate.
Proof. solve_decision. Defined.

(** Running a list of events through a partial step function. *)
Fixpoint exec {E W : Type} (step : E -> W -> option W)
    (es : list E) (w : W) : option W :=
  match es with
  | [] => Some w
  | e :: es' =>
      match step e w with
      | Some w' => exec step es' w'
      | None => None
      end
  end.

End Runtime.
Import Runtime.

(** ** [once-immediate.ts] *)

Module OnceImmediate.

(** What [createOnceImmediate] needs from the program that hosts it: the
    closure variable [timeout], the runtime call [setImmediate] (which
    queues the arrow function of line 17 by name), and what the runtime
    does with the promise chain of line 18. *)
Record Host (W : Type) : Type := {
  timeout : W -> option Immediate;
  set_timeout : option Immediate -> W -> W;
  setImmediate : W -> W;
  (* the arrow function threw: the exception leaves the macrotask *)
  uncaughtException : W -> W;
  (* [.finally] on a settled promise: its reaction job is queued *)
  enqueueFinally : Settle -> W -> W;
  (* [.finally] on a pending promise: the reaction waits for it *)
  awaitSettlement : W -> W;
}.
Arguments timeout {W} _ _.
Arguments set_timeout {W} _ _ _.
Arguments setImmediate {W} _ _.
Arguments uncaughtException {W} _ _.
Arguments enqueueFinally {W} _ _ _.
Arguments awaitSettlement {W} _ _.

Section createOnceImmediate.
Context {W : Type} (host : Host W).

(** The function that [createOnceImmediate] returns (lines 12-22). *)
Definition createOnceImmediate (w : W) : W :=
  match timeout host w with
  | Some _ => w
  | None => set_timeout host (Some ImmediateHandle) (setImmediate host w)
  end.

(** The arrow handed to [setImmediate] (lines 17-21):
    [void Promise.resolve(callback()).finally(...)].  [callback()] is
    evaluated first; when it throws, neither [Promise.resolve] nor
    [.finally] is reached. *)
Definition immediateArrow (callback : W -> Completion * W) (w : W) : W :=
  let '(c, w') := callback w in
  match c with
  | Throws => uncaughtException host w'
  | Returns => enqueueFinally host Fulfils w'
  | ReturnsSettled s => enqueueFinally host s w'
  | ReturnsPending => awaitSettlement host w'
  end.

(** The arrow handed to [.finally] (lines 18-20). *)
Definition finallyArrow (w : W) : W := set_timeout host None w.

End createOnceImmediate.

(** *** A scheduler on its own, with an arbitrary unit of work *)

(** What the scheduler can observe of one invocation of the unit of work:
    how often it calls the trigger while it runs, and how it completes. *)
Record Work : Set := {
  reenters : nat;
  completes : Completion;
}.

Inductive Macrotask : Set := ImmediateArrow.

Inductive Microtask : Set := FinallyArrow (s : Settle).

Record World : Set := {
  timeout_var : option Immediate;
  immediates : list Macrotask;   (* queued by setImmediate, not run yet *)
  microtasks : list Microtask;   (* promise reaction jobs ready to run *)
  pending : nat;                 (* unsettled promises of the unit of work *)
  runs : nat;                    (* invocations of the unit of work so far *)
  uncaught : nat;                (* exceptions that left a macrotask *)
  unhandled : nat;               (* rejections nobody handles *)
}.

Definition init : World :=
  {| timeout_var := None; immediates := []; microtasks := [];
     pending := 0; runs := 0; uncaught := 0; unhandled := 0 |}.

Definition with_timeout (t : option Immediate) (w : World) : World :=
  {| timeout_var := t; immediates := immediates w;
     microtasks := microtasks w; pending := pending w; runs := runs w;
     uncaught := uncaught w; unhandled := unhandled w |}.

Definition with_immediates (q : list Macrotask) (w : World) : World :=
  {| timeout_var := timeout_var w; immediates := q;
     microtasks := microtasks w; pending := pending w; runs := runs w;
     uncaught := uncaught w; unhandled := unhandled w |}.

Definition with_microtasks (q : list Microtask) (w : World) : World :=
  {| timeout_var := timeout_var w; immediates := immediates w;
     microtasks := q; pending := pending w; runs := runs w;
     uncaught := uncaught w; unhandled := unhandled w |}.

Definition with_pending (n : nat) (w : World) : World :=
  {| timeout_var := timeout_var w; immediates := immediates w;
     microtasks := microtasks w; pending := n; runs := runs w;
     uncaught := uncaught w; unhandled := unhandled w |}.

Definition with_runs (n : nat) (w : World) : World :=
  {| timeout_var := timeout_var w; immediates := immediates w;
     microtasks := microtasks w; pending := pending w; runs := n;
     uncaught := uncaught w; unhandled := unhandled w |}.

Definition with_uncaught (n : nat) (w : World) : World :=
  {| timeout_var := timeout_var w; immediates := immediates w;
     microtasks := microtasks w; pending := pending w; runs := runs w;
     uncaught := n; unhandled := unhandled w |}.

Definition with_unhandled (n : nat) (w : World) : World :=
  {| timeout_var := timeout_var w; immediates := immediates w;
     microtasks := microtasks w; pending := pending w; runs := runs w;
     uncaught := uncaught w; unhandled := n |}.

Definition host : Host World :=
  {| timeout := timeout_var;
     set_timeout := with_timeout;
     setImmediate := fun w =>
       with_immediates (immediates w ++ [ImmediateArrow]) w;
     uncaughtException := fun w => with_uncaught (S (uncaught w)) w;
     enqueueFinally := fun s w =>
       with_microtasks (microtasks w ++ [FinallyArrow s]) w;
     awaitSettlement := fun w => with_pending (S (pending w)) w |}.

(** The returned function, here called [trigger] as in the specification. *)
Definition trigger : World -> World := createOnceImmediate host.

Inductive Event : Set :=
| Trigger                 (* somebody calls the returned function *)
| RunImmediate            (* the event loop runs the next immediate *)
| SettleWork (s : Settle) (* a pending promise of the unit of work settles *)
| RunMicrotask.           (* the next promise reaction job runs *)

Section Scheduler.
(** The behaviour of the [k]-th invocation of the unit of work. *)
Variable unitOfWork : nat -> Work.

(** [callback()]: the unit of work runs, calling [trigger] as often as it
    pleases, and completes. *)
Definition callback (w : World) : Completion * World :=
  let k := runs w in
  (completes (unitOfWork k),
   Nat.iter (reenters (unitOfWork k)) trigger (with_runs (S k) w)).

Definition step (e : Event) (w : World) : option World :=
  match e with
  | Trigger => Some (trigger w)
  | RunImmediate =>
      match immediates w with
      | [] => None
      | ImmediateArrow :: q =>
          Some (immediateArrow host callback (with_immediates q w))
      end
  | SettleWork s =>
      match pending w with
      | 0 => None
      | S n => Some (enqueueFinally host s (with_pending n w))
      end
  | RunMicrotask =>
      match microtasks w with
      | [] => None
      | FinallyArrow s :: q =>
          (* [.finally] passes a rejection on to a promise that [void]
             throws away *)
          let w' := finallyArrow host (with_microtasks q w) in
          Some match s with
               | Fulfils => w'
               | Rejects => with_unhandled (S (unhandled w')) w'
               end
      end
  end.

(** A run is pending or executing: its immediate is queued, its promise is
    unsettled, or its [finally] reaction has not run yet. *)
Definition in_flight (w : World) : nat :=
  length (immediates w) + pending w + length (microtasks w).

End Scheduler.

(** At most one run is pending or executing, and none while the flag is
    clear. *)
Definition one_run (w : World) : Prop :=
  match timeout_var w with
  | None => in_flight w = 0
  | Some _ => in_flight w <= 1
  end.

(** A unit of work that calls [trigger()] once while it runs and returns a
    promise that is still pending. *)
Definition reentrantWork (k : nat) : Work :=
  {| reenters := 1; completes := ReturnsPending |}.

(** A unit of work that throws. *)
Definition throwingWork (k : nat) : Work :=
  {| reenters := 0; completes := Throws |}.

(** The state a synchronous throw leaves behind: the flag set, and nothing
    that could clear it. *)
Definition wedged (w : World) : Prop :=
  timeout_var w = Some ImmediateHandle /\ in_flight w = 0.

End OnceImmediate.

(** ** [emitter.ts] *)

Module ValueEmitter.

Section Emitter.
(** [T] is an enum or a primitive: [!==] decides equality on it. *)
Context {T : Type} `{EqDecision T}.

(** A registered observer, [Callback<T>]: who it is, and how a call to it
    with a given value completes.  What an observer does to the cell by
    calling back into it ([setValue], [onChange]) is an [Event] of its own,
    after the step that called it. *)
Record Callback : Type := {
  cb_id : nat;
  cb_call : option T -> Completion;
}.

Inductive Kind : Set := Replay | FanOut.

(** One call of an observer, as the trace of the cell records it. *)
Record Delivery : Type := {
  receiver : nat;
  carried : option T;
  kind : Kind;
}.

Inductive Macrotask : Set := EmitArrow.

Inductive Microtask : Set :=
| Resume (i : nat)           (* the async function goes on after [await] *)
| FinallyArrow (s : Settle). (* [() => { timeout = undefined }] *)

Record World : Type := {
  currentValue : option T;
  callbacks : list Callback;
  timeout : option Immediate;    (* the closure variable of [emit] *)
  immediates : list Macrotask;
  microtasks : list Microtask;
  awaiting : option nat;         (* suspended on a callback's pending
                                    promise; the index to go on with *)
  deliveries : list Delivery;
}.

Definition with_currentValue (v : option T) (w : World) : World :=
  {| currentValue := v; callbacks := callbacks w; timeout := timeout w;
     immediates := immediates w; microtasks := microtasks w;
     awaiting := awaiting w; deliveries := deliveries w |}.

Definition with_callbacks (l : list Callback) (w : World) : World :=
  {| currentValue := currentValue w; callbacks := l; timeout := timeout w;
     immediates := immediates w; microtasks := microtasks w;
     awaiting := awaiting w; deliveries := deliveries w |}.

Definition with_timeout (t : option Immediate) (w : World) : World :=
  {| currentValue := currentValue w; callbacks := callbacks w; timeout := t;
     immediates := immediates w; microtasks := microtasks w;
     awaiting := awaiting w; deliveries := deliveries w |}.

Definition with_immediates (q : list Macrotask) (w : World) : World :=
  {| currentValue := currentValue w; callbacks := callbacks w;
     timeout := timeout w; immediates := q; microtasks := microtasks w;
     awaiting := awaiting w; deliveries := deliveries w |}.

Definition with_microtasks (q : list Microtask) (w : World) : World :=
  {| currentValue := currentValue w; callbacks := callbacks w;
     timeout := timeout w; immediates := immediates w; microtasks := q;
     awaiting := awaiting w; deliveries := deliveries w |}.

Definition with_awaiting (a : option nat) (w : World) : World :=
  {| currentValue := currentValue w; callbacks := callbacks w;
     timeout := timeout w; immediates := immediates w;
     microtasks := microtasks w; awaiting := a;
     deliveries := deliveries w |}.

Definition with_deliveries (l : list Delivery) (w : World) : World :=
  {| currentValue := currentValue w; callbacks := callbacks w;
     timeout := timeout w; immediates := immediates w;
     microtasks := microtasks w; awaiting := awaiting w; deliveries := l |}.

(** [createValueEmitter()]: no value, no observer, nothing scheduled. *)
Definition createValueEmitter : World :=
  {| currentValue := None; callbacks := []; timeout := None;
     immediates := []; microtasks := []; awaiting := None;
     deliveries := [] |}.

Definition delivery (k : Kind) (v : option T) (cb : Callback) : Delivery :=
  {| receiver := cb_id cb; carried := v; kind := k |}.

(** [callback(currentValue)]: the call is recorded. *)
Definition call (k : Kind) (cb : Callback) (w : World) : World :=
  with_deliveries (deliveries w ++ [delivery k (currentValue w) cb]) w.

Definition host : OnceImmediate.Host World :=
  {| OnceImmediate.timeout := timeout;
     OnceImmediate.set_timeout := with_timeout;
     OnceImmediate.setImmediate := fun w =>
       with_immediates (immediates w ++ [EmitArrow]) w;
     (* the unit of work is an async function: it never throws *)
     OnceImmediate.uncaughtException := fun w => w;
     OnceImmediate.enqueueFinally := fun s w =>
       with_microtasks (microtasks w ++ [FinallyArrow s]) w;
     (* one promise at most is pending per cell, and [finally] is always
        chained to it: [resume] queues the reaction when the loop ends *)
     OnceImmediate.awaitSettlement := fun w => w |}.

(** [emit] (line 15): the scheduler of the fan-out. *)
Definition emit : World -> World := OnceImmediate.createOnceImmediate host.

(** The loop of lines 16-20 from its [i]-th iteration on, up to the next
    [await] that suspends it.  [rest] is what the array iterator has still
    to visit.  A callback that throws is caught at once and the loop goes
    on in the same step; any other completion is awaited.  The result says
    whether the loop ran to its end. *)
Fixpoint forOf (rest : list Callback) (i : nat) (w : World) : bool * World :=
  match rest with
  | [] => (true, w)
  | cb :: rest' =>
      let w1 := call FanOut cb w in
      match cb_call cb (currentValue w) with
      | Throws => forOf rest' (S i) w1
      | ReturnsPending => (false, with_awaiting (Some (S i)) w1)
      | Returns | ReturnsSettled _ =>
          (false, with_microtasks (microtasks w1 ++ [Resume (S i)]) w1)
      end
  end.

(** The async arrow of line 15, called: it runs up to its first suspension
    and returns its promise. *)
Definition unitOfWork (w : World) : Completion * World :=
  let '(finished, w') := forOf (callbacks w) 0 w in
  (if finished then ReturnsSettled Fulfils else ReturnsPending, w').

(** The async arrow goes on after an [await]; when the loop ends its
    promise fulfils and the [finally] reaction is queued. *)
Definition resume (i : nat) (w : World) : World :=
  let '(finished, w') := forOf (drop i (callbacks w)) i w in
  if finished then OnceImmediate.enqueueFinally host Fulfils w' else w'.

(** [value()] (lines 24-26). *)
Definition value (w : World) : option T := currentValue w.

(** [setValue(value)] (lines 27-32). *)
Definition setValue (v : option T) (w : World) : World :=
  if decide (currentValue w <> v)
  then emit (with_currentValue v w)
  else w.

(** [onChange(callback)] (lines 33-36): push, then the replay call.  A
    throw of the replay call leaves [onChange]; a promise it returns gets a
    [catch] that swallows its rejection. *)
Definition onChange (cb : Callback) (w : World) : Exit * World :=
  let w1 := with_callbacks (callbacks w ++ [cb]) w in
  let w2 := call Replay cb w1 in
  match cb_call cb (currentValue w1) with
  | Throws => (Raised, w2)
  | Returns | ReturnsSettled _ | ReturnsPending => (Done, w2)
  end.

Inductive Event : Type :=
| SetValue (v : option T)
| OnChange (cb : Callback)
| RunImmediate                  (* the event loop runs the next immediate *)
| RunMicrotask                  (* the next promise reaction job runs *)
| SettleCallback (s : Settle).  (* the awaited promise of a callback settles *)

Definition step (e : Event) (w : World) : option World :=
  match e with
  | SetValue v => Some (setValue v w)
  | OnChange cb => Some (snd (onChange cb w))
  | RunImmediate =>
      match immediates w with
      | [] => None
      | EmitArrow :: q =>
          Some (OnceImmediate.immediateArrow host unitOfWork
                  (with_immediates q w))
      end
  | RunMicrotask =>
      match microtasks w with
      | [] => None
      | Resume i :: q => Some (resume i (with_microtasks q w))
      | FinallyArrow _ :: q =>
          Some (OnceImmediate.finallyArrow host (with_microtasks q w))
      end
  | SettleCallback _ =>
      (* fulfilled or rejected (and caught), the loop goes on *)
      match awaiting w with
      | None => None
      | Some i =>
          Some (with_microtasks (microtasks w ++ [Resume i])
                  (with_awaiting None w))
      end
  end.

(** The events of the runtime, as opposed to calls into the cell. *)
Definition internal (e : Event) : bool :=
  match e with
  | SetValue _ | OnChange _ => false
  | RunImmediate | RunMicrotask | SettleCallback _ => true
  end.

(** Nothing is scheduled, running or suspended. *)
Definition idle (w : World) : Prop :=
  timeout w = None /\ immediates w = [] /\ microtasks w = [] /\
  awaiting w = None.

(** A fan-out is scheduled and has not begun. *)
Definition scheduled (w : World) : Prop :=
  timeout w = Some ImmediateHandle /\ immediates w = [EmitArrow] /\
  microtasks w = [] /\ awaiting w = None.

(** A burst of writes in one synchronous stretch. *)
Definition setValues (vs : list (option T)) (w : World) : World :=
  foldl (fun w v => setValue v w) w vs.

(** The event loop left alone: reaction jobs first, then the awaited
    promise, then the immediate. *)
Definition next (w : World) : option Event :=
  match microtasks w, awaiting w, immediates w with
  | _ :: _, _, _ => Some RunMicrotask
  | [], Some _, _ => Some (SettleCallback Fulfils)
  | [], None, _ :: _ => Some RunImmediate
  | [], None, [] => None
  end.

Fixpoint settle (fuel : nat) (w : World) : list Event * World :=
  match fuel with
  | 0 => ([], w)
  | S fuel' =>
      match next w with
      | None => ([], w)
      | Some e =>
          match step e w with
          | None => ([], w)
          | Some w' => let '(es, w'') := settle fuel' w' in (e :: es, w'')
          end
      end
  end.

(** One fan-out call to each of [cbs], in order, all carrying [v]. *)
Definition fanned (v : option T) (cbs : list Callback) : list Delivery := map (delivery FanOut v) cbs.

Definition mk v cbs t imm mic aw dl : World :=
  {| currentValue := v; callbacks := cbs; timeout := t; immediates := imm;
     microtasks := mic; awaiting := aw; deliveries := dl |}.

(** Where a fan-out of [v] to [cbs] stands, [L] being what was delivered
    before it was scheduled.  The index bounds the events the fan-out still
    needs. *)
Inductive phase (L : list Delivery) (v : option T) (cbs : list Callback)
    : nat -> World -> Prop :=
| ph_scheduled :
    phase L v cbs (2 * length cbs + 3)
      (mk v cbs (Some ImmediateHandle) [EmitArrow] [] None L)
| ph_resuming i dl :
    i <= length cbs -> dl = L ++ fanned v (take i cbs) ->
    phase L v cbs (2 * (length cbs - i) + 2)
      (mk v cbs (Some ImmediateHandle) [] [Resume i] None dl)
| ph_awaiting i dl :
    i <= length cbs -> dl = L ++ fanned v (take i cbs) ->
    phase L v cbs (2 * (length cbs - i) + 3)
      (mk v cbs (Some ImmediateHandle) [] [] (Some i) dl)
| ph_finishing s dl :
    dl = L ++ fanned v cbs ->
    phase L v cbs 1
      (mk v cbs (Some ImmediateHandle) [] [FinallyArrow s] None dl)
| ph_idle dl :
    dl = L ++ fanned v cbs ->
    phase L v cbs 0 (mk v cbs None [] [] None dl).

End Emitter.

Arguments Callback T : clear implicits.
Arguments Delivery T : clear implicits.
Arguments World T : clear implicits.
Arguments Event T : clear implicits.

End ValueEmitter.

(** ** [localstack-instance.ts]: the health poll loop *)

Module HealthStatusTracker.

(** [type HealthStatus = "healthy" | "unhealthy"] (line 145). *)
Inductive HealthStatus : Set := healthy | unhealthy.

#[global] Instance HealthStatus_eq_dec : EqDecision HealthStatus.
Proof. solve_decision. Defined.

(** [fetchHealth] is imported from [manage.ts], which is not part of the
    sources at hand: the poll loop is settled for every way a function of
    type [() => Promise<boolean>] can settle. *)
Inductive ProbeResult : Set :=
| Resolves (b : bool)
| ProbeRejects.



(** [TimeTracker] is imported from [time-tracker.ts], which is not part of
    the sources at hand either.  [run name fn] is taken to call [fn] once,
    at once; how the promise it returns settles, given how the promise of
    [fn] did, is left to the tracker. *)
Record TimeTracker : Set := {
  run : Settle -> Settle;
}.

(** The tracker that hands the promise of [fn] through. *)
Definition plainTimeTracker : TimeTracker := {| run := fun s => s |}.

Record World : Type := {
  status : ValueEmitter.World HealthStatus;
  healthCheckTimeout : option Timeout;
  enqueueAgain : bool;
  timers : list Timeout;       (* armed by setTimeout, neither fired nor
                                  cleared *)
  next_timeout : Timeout;      (* the handle the next setTimeout returns *)
  probes : nat;                (* calls of fetchHealth in flight *)
  reactions : nat;             (* [then] reaction jobs ready to run *)
  unhandled : nat;             (* rejections nobody handles *)
}.

Definition with_status (c : ValueEmitter.World HealthStatus) (w : World)
    : World :=
  {| status := c; healthCheckTimeout := healthCheckTimeout w;
     enqueueAgain := enqueueAgain w; timers := timers w;
     next_timeout := next_timeout w; probes := probes w;
     reactions := reactions w; unhandled := unhandled w |}.

Definition with_healthCheckTimeout (h : option Timeout) (w : World) : World :=
  {| status := status w; healthCheckTimeout := h;
     enqueueAgain := enqueueAgain w; timers := timers w;
     next_timeout := next_timeout w; probes := probes w;
     reactions := reactions w; unhandled := unhandled w |}.

Definition with_enqueueAgain (b : bool) (w : World) : World :=
  {| status := status w; healthCheckTimeout := healthCheckTimeout w;
     enqueueAgain := b; timers := timers w;
     next_timeout := next_timeout w; probes := probes w;
     reactions := reactions w; unhandled := unhandled w |}.

Definition with_timers (l : list Timeout) (w : World) : World :=
  {| status := status w; healthCheckTimeout := healthCheckTimeout w;
     enqueueAgain := enqueueAgain w; timers := l;
     next_timeout := next_timeout w; probes := probes w;
     reactions := reactions w; unhandled := unhandled w |}.

Definition with_next_timeout (h : Timeout) (w : World) : World :=
  {| status := status w; healthCheckTimeout := healthCheckTimeout w;
     enqueueAgain := enqueueAgain w; timers := timers w;
     next_timeout := h; probes := probes w;
     reactions := reactions w; unhandled := unhandled w |}.

Definition with_probes (n : nat) (w : World) : World :=
  {| status := status w; healthCheckTimeout := healthCheckTimeout w;
     enqueueAgain := enqueueAgain w; timers := timers w;
     next_timeout := next_timeout w; probes := n;
     reactions := reactions w; unhandled := unhandled w |}.

Definition with_reactions (n : nat) (w : World) : World :=
  {| status := status w; healthCheckTimeout := healthCheckTimeout w;
     enqueueAgain := enqueueAgain w; timers := timers w;
     next_timeout := next_timeout w; probes := probes w;
     reactions := n; unhandled := unhandled w |}.

Definition with_unhandled (n : nat) (w : World) : World :=
  {| status := status w; healthCheckTimeout := healthCheckTimeout w;
     enqueueAgain := enqueueAgain w; timers := timers w;
     next_timeout := next_timeout w; probes := probes w;
     reactions := reactions w; unhandled := n |}.

(** [setTimeout(arrow, 1_000)]: a fresh handle, armed. *)
Definition setTimeout (w : World) : Timeout * World :=
  let h := next_timeout w in
  (h, with_next_timeout (S h) (with_timers (timers w ++ [h]) w)).

(** [clearTimeout(handle)]: disarms the timer if it is still armed; does
    nothing for [undefined] or for a timer that has fired. *)
Definition clearTimeout (h : option Timeout) (w : World) : World :=
  match h with
  | None => w
  | Some h => with_timers (filter (fun h' => h' <> h) (timers w)) w
  end.

(** [createHealthStatusTracker(timeTracker)] (lines 157-172). *)
Definition createHealthStatusTracker : World :=
  {| status := ValueEmitter.createValueEmitter;
     healthCheckTimeout := None; enqueueAgain := false; timers := [];
     next_timeout := 0; probes := 0; reactions := 0; unhandled := 0 |}.

(** [updateStatus] (lines 161-163). *)
Definition updateStatus (newStatus : option HealthStatus) (w : World)
    : World :=
  with_status (ValueEmitter.setValue newStatus (status w)) w.

(** [enqueueUpdateStatus] (lines 174-189). *)
Definition enqueueUpdateStatus (w : World) : World :=
  match healthCheckTimeout w with
  | Some _ => w
  | None =>
      let '(h, w') := setTimeout w in
      with_healthCheckTimeout (Some h) w'
  end.

(** The arrow handed to [setTimeout] (lines 179-188) calls
    [fetchAndUpdateStatus], which calls [fetchHealth] through the time
    tracker: a probe is in flight.  The [then] reaction waits for it. *)
Definition timeoutArrow (w : World) : World :=
  with_probes (S (probes w)) w.

(** The arrow handed to [then] (lines 180-187). *)
Definition thenArrow (w : World) : World :=
  if negb (enqueueAgain w) then w
  else enqueueUpdateStatus (with_healthCheckTimeout None w).

(** [status()] (lines 192-194). *)
Definition status_of (w : World) : option HealthStatus :=
  ValueEmitter.value (status w).

(** [start()] (lines 195-198). *)
Definition start (w : World) : World :=
  enqueueUpdateStatus (with_enqueueAgain true w).

(** [stop()] (lines 199-204). *)
Definition stop (w : World) : World :=
  let w1 := with_status (ValueEmitter.setValue None (status w)) w in
  let w2 := with_enqueueAgain false w1 in
  let w3 := clearTimeout (healthCheckTimeout w2) w2 in
  with_healthCheckTimeout None w3.

(** [onChange(callback)] (lines 205-207). *)
Definition onChange (cb : ValueEmitter.Callback HealthStatus) (w : World)
    : Exit * World :=
  let '(x, c) := ValueEmitter.onChange cb (status w) in (x, with_status c w).

(** [dispose()] (lines 208-210). *)
Definition dispose (w : World) : World :=
  clearTimeout (healthCheckTimeout w) w.

Inductive Event : Type :=
| Start
| Stop
| Dispose
| Subscribe (cb : ValueEmitter.Callback HealthStatus)
| FireTimeout (h : Timeout)      (* an armed timer fires *)
| SettleProbe (r : ProbeResult)  (* a probe in flight settles *)
| RunThen                        (* a [then] reaction job runs *)
| Cell (e : ValueEmitter.Event HealthStatus).
                                 (* the cell's own fan-out goes on *)

Section PollLoop.
Variable timeTracker : TimeTracker.

(** A probe settles, and with it the body of [fetchAndUpdateStatus]
    (lines 165-170): the inner async arrow goes on after
    [await fetchHealth()], or rejects where the probe did; its promise
    passes through [timeTracker.run] and [fetchAndUpdateStatus] to [then]
    (line 180), whose own promise [void] throws away. *)
Definition probeSettled (r : ProbeResult) (w : World) : World :=
  let '(s, w1) :=
    match r with
    | Resolves b =>
        (Fulfils, updateStatus (Some (if b then healthy else unhealthy)) w)
    | ProbeRejects => (Rejects, w)
    end in
  match run timeTracker s with
  | Fulfils => with_reactions (S (reactions w1)) w1
  | Rejects => with_unhandled (S (unhandled w1)) w1
  end.

Definition step (e : Event) (w : World) : option World :=
  match e with
  | Start => Some (start w)
  | Stop => Some (stop w)
  | Dispose => Some (dispose w)
  | Subscribe cb => Some (snd (onChange cb w))
  | FireTimeout h =>
      if decide (h ∈ timers w)
      then Some (timeoutArrow
                   (with_timers (filter (fun h' => h' <> h) (timers w)) w))
      else None
  | SettleProbe r =>
      match probes w with
      | 0 => None
      | S n => Some (probeSettled r (with_probes n w))
      end
  | RunThen =>
      match reactions w with
      | 0 => None
      | S n => Some (thenArrow (with_reactions n w))
      end
  | Cell e =>
      (* the cell is private: nobody else writes it or subscribes to it
         directly *)
      if ValueEmitter.internal e
      then c ← ValueEmitter.step e (status w); Some (with_status c w)
      else None
  end.

End PollLoop.

(** After [stop()], and until [start()] is called again: the flag stays
    down and [setTimeout] is not called. *)
Definition stopped_loop (n : Timeout) (armed : list Timeout) (w : World)
    : Prop :=
  enqueueAgain w = false /\ next_timeout w = n /\
  (forall h, h ∈ timers w -> h ∈ armed).

(** [start()], and the timer has fired: the first probe is in flight. *)
Definition probing : World :=
  {| status := ValueEmitter.createValueEmitter;
     healthCheckTimeout := Some 0; enqueueAgain := true; timers := [];
     next_timeout := 1; probes := 1; reactions := 0; unhandled := 0 |}.

End HealthStatusTracker.

(** ** [localstack-instance.ts]: the instance status tracker *)

Module InstanceStatusTracker.

(** Modelled from the spec: the type [LocalStackContainerStatus], declared
    in [localstack-container.ts], which is not part of the sources at
    hand: "enum [{running, stopping, stopped}]". *)
Inductive LocalStackContainerStatus : Set :=
| c_running | c_stopping | c_stopped.

(** [LocalStackInstanceStatus] (lines 11-15). *)
Inductive LocalStackInstanceStatus : Set :=
| starting | running | stopping | stopped.

#[global] Instance LocalStackContainerStatus_eq_dec :
  EqDecision LocalStackContainerStatus.
Proof. solve_decision. Defined.

#[global] Instance LocalStackInstanceStatus_eq_dec :
  EqDecision LocalStackInstanceStatus.
Proof. solve_decision. Defined.

(** [getLocalStackStatus] (lines 108-143), branch for branch. *)
Definition getLocalStackStatus
    (containerStatus : option LocalStackContainerStatus)
    (healthStatus : option HealthStatusTracker.HealthStatus)
    (previousStatus : option LocalStackInstanceStatus)
    : option LocalStackInstanceStatus :=
  if decide (containerStatus = None) then None
  else if decide (containerStatus = Some c_running /\
                  healthStatus = Some HealthStatusTracker.healthy)
       then Some running
  else if decide (containerStatus = Some c_running /\
                  healthStatus = Some HealthStatusTracker.unhealthy) then
    if decide (previousStatus = Some running \/
               previousStatus = Some stopping)
    then Some stopping
    else Some starting
  else if decide (containerStatus = Some c_running /\
                  healthStatus = None) then None
  else if decide (containerStatus = Some c_stopping) then Some stopping
  else Some stopped.

(** The table of the specification (section 4.4), row by row.  [None]
    stands for both "absent (no emission)" and "no change". *)
Definition derive_table
    (container : option LocalStackContainerStatus)
    (health : option HealthStatusTracker.HealthStatus)
    (previous : option LocalStackInstanceStatus)
    : option LocalStackInstanceStatus :=
  match container, health, previous with
  | None, _, _ => None
  | Some c_running, Some HealthStatusTracker.healthy, _ => Some running
  | Some c_running, Some HealthStatusTracker.unhealthy, Some running =>
      Some stopping
  | Some c_running, Some HealthStatusTracker.unhealthy, Some stopping =>
      Some stopping
  | Some c_running, Some HealthStatusTracker.unhealthy, _ => Some starting
  | Some c_running, None, _ => None
  | Some c_stopping, _, _ => Some stopping
  | Some c_stopped, _, _ => Some stopped
  end.

Record World : Type := {
  containerStatus : option LocalStackContainerStatus;
  status : ValueEmitter.World LocalStackInstanceStatus;
  healthCheckStatusTracker : HealthStatusTracker.World;
}.

Definition with_containerStatus (c : option LocalStackContainerStatus)
    (w : World) : World :=
  {| containerStatus := c; status := status w;
     healthCheckStatusTracker := healthCheckStatusTracker w |}.

Definition with_status (c : ValueEmitter.World LocalStackInstanceStatus)
    (w : World) : World :=
  {| containerStatus := containerStatus w; status := c;
     healthCheckStatusTracker := healthCheckStatusTracker w |}.

Definition with_healthCheckStatusTracker (h : HealthStatusTracker.World)
    (w : World) : World :=
  {| containerStatus := containerStatus w; status := status w;
     healthCheckStatusTracker := h |}.

(** The two observers the tracker registers on its own cells (lines 63
    and 81).  Both return nothing; what they do to the tracker is
    [onStatusChange] and [onHealthChange] below. *)
Definition statusObserver : ValueEmitter.Callback LocalStackInstanceStatus :=
  {| ValueEmitter.cb_id := 0; ValueEmitter.cb_call := fun _ => Returns |}.

Definition healthObserver
    : ValueEmitter.Callback HealthStatusTracker.HealthStatus :=
  {| ValueEmitter.cb_id := 0; ValueEmitter.cb_call := fun _ => Returns |}.

(** [setStatus] (lines 38-40). *)
Definition setStatus (newStatus : LocalStackInstanceStatus) (w : World)
    : World :=
  with_status (ValueEmitter.setValue (Some newStatus) (status w)) w.

(** [deriveStatus] (lines 42-54); the trace line is not modelled. *)
Definition deriveStatus (w : World) : World :=
  match getLocalStackStatus (containerStatus w)
          (HealthStatusTracker.status_of (healthCheckStatusTracker w))
          (ValueEmitter.value (status w)) with
  | Some newStatus => setStatus newStatus w
  | None => w
  end.

(** The first observer of the container status (lines 56-61). *)
Definition onContainerChange_derive
    (newContainerStatus : option LocalStackContainerStatus) (w : World)
    : World :=
  if decide (containerStatus w <> newContainerStatus)
  then deriveStatus (with_containerStatus newContainerStatus w)
  else w.

(** The observer of the instance status (lines 63-69). *)
Definition onStatusChange (newStatus : option LocalStackInstanceStatus)
    (w : World) : World :=
  if decide (newStatus = Some running)
  then with_healthCheckStatusTracker
         (HealthStatusTracker.stop (healthCheckStatusTracker w)) w
  else w.

(** The second observer of the container status (lines 71-79). *)
Definition onContainerChange_start
    (newContainerStatus : option LocalStackContainerStatus) (w : World)
    : World :=
  if decide (newContainerStatus = Some c_running /\
             ValueEmitter.value (status w) <> Some running)
  then with_healthCheckStatusTracker
         (HealthStatusTracker.start (healthCheckStatusTracker w)) w
  else w.

(** The observer of the health status (lines 81-83). *)
Definition onHealthChange (w : World) : World := deriveStatus w.

(** [createLocalStackInstanceStatusTracker] (lines 33-85), with a
    container tracker that has nothing to replay: the two cells are
    created, the observers of lines 63 and 81 are registered (each is
    replayed [undefined], which does nothing), and [deriveStatus] runs
    once. *)
Definition createLocalStackInstanceStatusTracker : World :=
  let w0 :=
    {| containerStatus := None;
       status :=
         snd (ValueEmitter.onChange statusObserver
                ValueEmitter.createValueEmitter);
       healthCheckStatusTracker :=
         HealthStatusTracker.createHealthStatusTracker |} in
  let w1 := onStatusChange None w0 in
  let w2 :=
    with_healthCheckStatusTracker
      (snd (HealthStatusTracker.onChange healthObserver
              (healthCheckStatusTracker w1))) w1 in
  deriveStatus (onHealthChange w2).

(** [status()] (lines 88-90). *)
Definition status_of (w : World) : option LocalStackInstanceStatus :=
  ValueEmitter.value (status w).

(** [forceContainerStatus] (lines 91-98). *)
Definition forceContainerStatus
    (newContainerStatus : LocalStackContainerStatus) (w : World) : World :=
  let w1 := with_containerStatus (Some newContainerStatus) w in
  if decide (newContainerStatus = c_running)
  then with_status (ValueEmitter.setValue (Some starting) (status w1)) w1
  else if decide (newContainerStatus = c_stopping)
  then with_status (ValueEmitter.setValue (Some stopping) (status w1)) w1
  else w1.

(** [onChange(callback)] (lines 99-101). *)
Definition onChange (cb : ValueEmitter.Callback LocalStackInstanceStatus)
    (w : World) : Exit * World :=
  let '(x, c) := ValueEmitter.onChange cb (status w) in (x, with_status c w).

(** [dispose()] (lines 102-104). *)
Definition dispose (w : World) : World :=
  with_healthCheckStatusTracker
    (HealthStatusTracker.dispose (healthCheckStatusTracker w)) w.

End InstanceStatusTracker.

(** ** Cells and observers to run the definitions on *)

Module Cells.
Import ValueEmitter.

Local Abbreviation Status := InstanceStatusTracker.LocalStackInstanceStatus.
Local Abbreviation starting := InstanceStatusTracker.starting.
Local Abbreviation running := InstanceStatusTracker.running.

(** An observer that returns nothing, one that throws, and one that
    returns a promise that is still pending. *)
Definition plainObserver : Callback Status :=
  {| cb_id := 1; cb_call := fun _ => Returns |}.

Definition throwingObserver : Callback Status :=
  {| cb_id := 2; cb_call := fun _ => Throws |}.

Definition asyncObserver : Callback Status :=
  {| cb_id := 3; cb_call := fun _ => ReturnsPending |}.

(** A cell at rest with the three observers registered, holding nothing. *)
Definition observedCell : World Status :=
  mk None [plainObserver; throwingObserver; asyncObserver] None [] [] None
    [delivery Replay None plainObserver;
     delivery Replay None throwingObserver;
     delivery Replay None asyncObserver].

(** [observedCell] after [starting] was written and fanned out, and after
    [running] was written and fanned out next. *)
Definition startingCell : World Status :=
  mk (Some starting) (callbacks observedCell) None [] [] None
    (deliveries observedCell ++
     fanned (Some starting) (callbacks observedCell)).

Definition runningCell : World Status :=
  mk (Some running) (callbacks observedCell) None [] [] None
    (deliveries startingCell ++
     fanned (Some running) (callbacks observedCell)).

(** The events of one fan-out to the three observers: the immediate (the
    first observer is called and awaited), the loop resumed (the second
    throws, the third is called and its promise awaited), the promise
    settled, the loop resumed to its end, the [finally] handler. *)
Definition oneFanOut : list (Event Status) :=
  [RunImmediate; RunMicrotask; SettleCallback Fulfils; RunMicrotask;
   RunMicrotask].

End Cells.

(** ** Counting over executions of the scheduler *)

Module SchedulerTraces.
Import OnceImmediate.

(** How often the returned function is called from outside in an
    execution. *)
Fixpoint triggers (es : list Event) : nat :=
  match es with
  | [] => 0
  | Trigger :: es' => S (triggers es')
  | _ :: es' => triggers es'
  end.

(** A unit of work that always returns a promise still pending. *)
Definition asyncWork (k : nat) : Work :=
  {| reenters := 0; completes := ReturnsPending |}.

End SchedulerTraces.

(** ** A fan-out that is under way *)

Module FanOutProgress.
Import ValueEmitter.

Section Progress.
Context {T : Type} `{EqDecision T}.

(** The fan-out of [v] to [cbs] has come as far as some index: what was
    delivered so far, followed by one call to each observer still to
    visit, is [E].  The index bounds the events still needed. *)
Inductive rest_phase (E : list (Delivery T)) (v : option T)
    (cbs : list (Callback T)) : nat -> World T -> Prop :=
| rp_resuming i dl :
    i <= length cbs -> dl ++ fanned v (drop i cbs) = E ->
    rest_phase E v cbs (2 * (length cbs - i) + 2)
      (mk v cbs (Some ImmediateHandle) [] [Resume i] None dl)
| rp_awaiting i dl :
    i <= length cbs -> dl ++ fanned v (drop i cbs) = E ->
    rest_phase E v cbs (2 * (length cbs - i) + 3)
      (mk v cbs (Some ImmediateHandle) [] [] (Some i) dl)
| rp_finishing s :
    rest_phase E v cbs 1
      (mk v cbs (Some ImmediateHandle) [] [FinallyArrow s] None E)
| rp_idle :
    rest_phase E v cbs 0 (mk v cbs None [] [] None E).

(** The values written in an execution, in order. *)
Fixpoint writes (es : list (Event T)) : list (option T) :=
  match es with
  | [] => []
  | SetValue v :: es' => v :: writes es'
  | _ :: es' => writes es'
  end.

End Progress.

(** A cell whose first observer returned a promise that is still pending:
    the fan-out of [starting] has called it and waits; the second observer
    has not been called yet. *)
Definition suspendedCell
    : World InstanceStatusTracker.LocalStackInstanceStatus :=
  mk (Some InstanceStatusTracker.starting)
    [Cells.asyncObserver; Cells.plainObserver]
    (Some ImmediateHandle) [] [] (Some 1)
    [delivery Replay None Cells.asyncObserver;
     delivery Replay None Cells.plainObserver;
     delivery FanOut (Some InstanceStatusTracker.starting)
       Cells.asyncObserver].

End FanOutProgress.

(** ** Executions of the health poll loop *)

Module PollLoopTraces.
Import HealthStatusTracker.

(** [stop()] is never called while a probe is in flight or its [then]
    handler is still to run. *)
Fixpoint calm (timeTracker : TimeTracker) (es : list Event) (w : World)
    : Prop :=
  match es with
  | [] => True
  | e :: es' =>
      match e with
      | Stop => probes w = 0 /\ reactions w = 0
      | _ => True
      end /\
      match step timeTracker e w with
      | Some w' => calm timeTracker es' w'
      | None => True
      end
  end.

(** What the poll loop has going: armed timers, probes in flight and
    [then] handlers ready to run. *)
Definition going (w : World) : nat :=
  length (timers w) + probes w + reactions w.

(** One thing at most is going, an armed timer is the one the tracker
    holds the handle of, and nothing is going while it holds none. *)
Definition tidy (w : World) : Prop :=
  going w <= 1 /\
  (forall h, h ∈ timers w -> healthCheckTimeout w = Some h) /\
  (healthCheckTimeout w = None -> going w = 0).

(** The loop is down and the cell holds nothing. *)
Definition silent (w : World) : Prop :=
  enqueueAgain w = false /\ going w = 0 /\ status_of w = None.

(** The poll loop after its first probe found the service healthy and the
    next timer was armed. *)
Definition polling : World :=
  {| status :=
       ValueEmitter.mk (Some healthy) [] (Some ImmediateHandle)
         [ValueEmitter.EmitArrow] [] None [];
     healthCheckTimeout := Some 1; enqueueAgain := true; timers := [1];
     next_timeout := 2; probes := 0; reactions := 0; unhandled := 0 |}.

End PollLoopTraces.

(** ** The instance status tracker with its cells wired up *)

Module TrackerLoop.
Import InstanceStatusTracker.

#[global] Instance Kind_eq_dec : EqDecision ValueEmitter.Kind.
Proof. solve_decision. Defined.

(** The values a step of a cell has fanned out to the tracker's own
    observer (registered first, under id 0): the fan-out calls the step
    added to the cell's record. *)
Definition own_calls {T : Type} (before after : ValueEmitter.World T)
    : list (option T) :=
  map ValueEmitter.carried
    (filter (fun d => ValueEmitter.receiver d = 0 /\
                      ValueEmitter.kind d = ValueEmitter.FanOut)
       (drop (length (ValueEmitter.deliveries before))
          (ValueEmitter.deliveries after))).

Inductive Event : Type :=
| ContainerDerive (c : option LocalStackContainerStatus)
    (* the container tracker calls the observer of lines 56-61 *)
| ContainerStart (c : option LocalStackContainerStatus)
    (* the container tracker calls the observer of lines 71-79 *)
| Force (s : LocalStackContainerStatus)
| Subscribe (cb : ValueEmitter.Callback LocalStackInstanceStatus)
| Dispose
| Health (e : HealthStatusTracker.Event)
    (* the runtime moves the health tracker on *)
| Status (e : ValueEmitter.Event LocalStackInstanceStatus).
    (* the runtime moves the fan-out of the instance status on *)

(** The events of the health tracker that the runtime causes; its methods
    are called by the tracker's observers only. *)
Definition health_runtime (e : HealthStatusTracker.Event) : bool :=
  match e with
  | HealthStatusTracker.FireTimeout _
  | HealthStatusTracker.SettleProbe _
  | HealthStatusTracker.RunThen => true
  | HealthStatusTracker.Cell e' => ValueEmitter.internal e'
  | HealthStatusTracker.Start
  | HealthStatusTracker.Stop
  | HealthStatusTracker.Dispose
  | HealthStatusTracker.Subscribe _ => false
  end.

Section Loop.
Variable timeTracker : HealthStatusTracker.TimeTracker.

Definition step (e : Event) (w : World) : option World :=
  match e with
  | ContainerDerive c => Some (onContainerChange_derive c w)
  | ContainerStart c => Some (onContainerChange_start c w)
  | Force s => Some (forceContainerStatus s w)
  | Subscribe cb =>
      (* id 0 is the tracker's own observer *)
      if decide (ValueEmitter.cb_id cb = 0) then None
      else Some (snd (onChange cb w))
  | Dispose => Some (dispose w)
  | Health e =>
      if health_runtime e then
        h ← HealthStatusTracker.step timeTracker e
               (healthCheckStatusTracker w);
        Some (foldl (fun w _ => onHealthChange w)
                (with_healthCheckStatusTracker h w)
                (own_calls
                   (HealthStatusTracker.status (healthCheckStatusTracker w))
                   (HealthStatusTracker.status h)))
      else None
  | Status e =>
      if ValueEmitter.internal e then
        c ← ValueEmitter.step e (status w);
        Some (foldl (fun w v => onStatusChange v w)
                (with_status c w) (own_calls (status w) c))
      else None
  end.

End Loop.

(** The events the runtime causes, as opposed to calls into the tracker
    by the container tracker or by its users. *)
Definition runtime (e : Event) : bool :=
  match e with
  | Health _ | Status _ => true
  | ContainerDerive _ | ContainerStart _ | Force _ | Subscribe _
  | Dispose => false
  end.

(** The fan-out of the health status to the tracker's observer: the
    immediate (the observer is called and awaited), the loop resumed to
    its end, the [finally] handler. *)
Definition healthFanOut : list Event :=
  [Health (HealthStatusTracker.Cell ValueEmitter.RunImmediate);
   Health (HealthStatusTracker.Cell ValueEmitter.RunMicrotask);
   Health (HealthStatusTracker.Cell ValueEmitter.RunMicrotask)].

(** The container is seen running and the service comes up: both
    container observers are called, the timer fires, the probe finds the
    service healthy, the health status is fanned out and derived from, and
    the instance status is fanned out in turn. *)
Definition comingUp : list Event :=
  [ContainerDerive (Some c_running); ContainerStart (Some c_running);
   Health (HealthStatusTracker.FireTimeout 0);
   Health (HealthStatusTracker.SettleProbe
             (HealthStatusTracker.Resolves true));
   Health HealthStatusTracker.RunThen;
   Health (HealthStatusTracker.Cell ValueEmitter.RunImmediate);
   Health (HealthStatusTracker.Cell ValueEmitter.RunMicrotask);
   Health (HealthStatusTracker.Cell ValueEmitter.RunMicrotask);
   Status ValueEmitter.RunImmediate].

End TrackerLoop.

(** ** [setup.ts]: the setup status tracker *)

Module SetupStatusTracker.

(** [SetupStatus] (line 80). *)
Inductive SetupStatus : Set :=
| ok | setup_required | waiting_for_dependencies.

#[global] Instance SetupStatus_eq_dec : EqDecision SetupStatus.
Proof. solve_decision. Defined.

(** What the four dependency trackers answer to [status()] at the moment.
    They are created from files that are not part of the sources at hand;
    their answers are inputs. *)
Record Dependencies : Set := {
  cliTracker : option SetupStatus;
  awsProfileTracker : option SetupStatus;
  authTracker : option SetupStatus;
  licenseTracker : option SetupStatus;
}.

Inductive Macrotask : Set := CheckArrow.

Inductive Microtask : Set :=
| AfterAwait                 (* line 154 goes on after [await] *)
| FinallyArrow (s : Settle).

Record World : Type := {
  dependencies : Dependencies;
  status : ValueEmitter.World SetupStatus;
  checkStatus_timeout : option Immediate;  (* the flag of [checkStatus] *)
  immediates : list Macrotask;
  microtasks : list Microtask;
  timeout : option Timeout;                (* line 169 *)
  timers : list Timeout;
  next_timeout : Timeout;
}.

Definition with_dependencies (d : Dependencies) (w : World) : World :=
  {| dependencies := d; status := status w;
     checkStatus_timeout := checkStatus_timeout w;
     immediates := immediates w; microtasks := microtasks w;
     timeout := timeout w; timers := timers w;
     next_timeout := next_timeout w |}.

Definition with_status (c : ValueEmitter.World SetupStatus) (w : World)
    : World :=
  {| dependencies := dependencies w; status := c;
     checkStatus_timeout := checkStatus_timeout w;
     immediates := immediates w; microtasks := microtasks w;
     timeout := timeout w; timers := timers w;
     next_timeout := next_timeout w |}.

Definition with_checkStatus_timeout (t : option Immediate) (w : World)
    : World :=
  {| dependencies := dependencies w; status := status w;
     checkStatus_timeout := t;
     immediates := immediates w; microtasks := microtasks w;
     timeout := timeout w; timers := timers w;
     next_timeout := next_timeout w |}.

Definition with_immediates (q : list Macrotask) (w : World) : World :=
  {| dependencies := dependencies w; status := status w;
     checkStatus_timeout := checkStatus_timeout w;
     immediates := q; microtasks := microtasks w;
     timeout := timeout w; timers := timers w;
     next_timeout := next_timeout w |}.

Definition with_microtasks (q : list Microtask) (w : World) : World :=
  {| dependencies := dependencies w; status := status w;
     checkStatus_timeout := checkStatus_timeout w;
     immediates := immediates w; microtasks := q;
     timeout := timeout w; timers := timers w;
     next_timeout := next_timeout w |}.

Definition with_timeout (h : option Timeout) (w : World) : World :=
  {| dependencies := dependencies w; status := status w;
     checkStatus_timeout := checkStatus_timeout w;
     immediates := immediates w; microtasks := microtasks w;
     timeout := h; timers := timers w;
     next_timeout := next_timeout w |}.

Definition with_timers (l : list Timeout) (w : World) : World :=
  {| dependencies := dependencies w; status := status w;
     checkStatus_timeout := checkStatus_timeout w;
     immediates := immediates w; microtasks := microtasks w;
     timeout := timeout w; timers := l;
     next_timeout := next_timeout w |}.

Definition with_next_timeout (h : Timeout) (w : World) : World :=
  {| dependencies := dependencies w; status := status w;
     checkStatus_timeout := checkStatus_timeout w;
     immediates := immediates w; microtasks := microtasks w;
     timeout := timeout w; timers := timers w;
     next_timeout := h |}.

(** [Object.values(statuses)] (lines 111-116). *)
Definition statuses (d : Dependencies) : list (option SetupStatus) :=
  [cliTracker d; awsProfileTracker d; authTracker d; licenseTracker d].

(** [checkStatusNow] (lines 110-151); the trace lines are not modelled.
    Its body has no [await]: called, it runs to its end. *)
Definition checkStatusNow (w : World) : World :=
  let values := statuses (dependencies w) in
  let notInitialized :=
    existsb (fun check => bool_decide (check = None)) values in
  if notInitialized then w
  else
    let setupRequired :=
      existsb (fun status => bool_decide (status = Some setup_required))
        values in
    let newStatus := if setupRequired then setup_required else ok in
    with_status (ValueEmitter.setValue (Some newStatus) (status w)) w.

Definition host : OnceImmediate.Host World :=
  {| OnceImmediate.timeout := checkStatus_timeout;
     OnceImmediate.set_timeout := with_checkStatus_timeout;
     OnceImmediate.setImmediate := fun w =>
       with_immediates (immediates w ++ [CheckArrow]) w;
     (* the unit of work is an async function: it never throws *)
     OnceImmediate.uncaughtException := fun w => w;
     OnceImmediate.enqueueFinally := fun s w =>
       with_microtasks (microtasks w ++ [FinallyArrow s]) w;
     (* the promise of the async arrow settles when [AfterAwait] runs *)
     OnceImmediate.awaitSettlement := fun w => w |}.

(** [checkStatus] (lines 153-155). *)
Definition checkStatus : World -> World :=
  OnceImmediate.createOnceImmediate host.

(** The async arrow of line 153, called: [checkStatusNow()] runs, and the
    arrow awaits the promise it returned. *)
Definition unitOfWork (w : World) : Completion * World :=
  let w1 := checkStatusNow w in
  (ReturnsPending, with_microtasks (microtasks w1 ++ [AfterAwait]) w1).

(** [setTimeout(arrow, 1000)] and [clearTimeout(handle)]. *)
Definition setTimeout (w : World) : Timeout * World :=
  let h := next_timeout w in
  (h, with_next_timeout (S h) (with_timers (timers w ++ [h]) w)).

Definition clearTimeout (h : option Timeout) (w : World) : World :=
  match h with
  | None => w
  | Some h => with_timers (filter (fun h' => h' <> h) (timers w)) w
  end.

(** [startChecking] (lines 170-175). *)
Definition startChecking (w : World) : World :=
  let w1 := checkStatus w in
  let '(h, w2) := setTimeout w1 in
  with_timeout (Some h) w2.

(** [createSetupStatusTracker] up to line 180: the cell and the scheduler
    are created and [startChecking()] has run.  The observers of lines
    157-167 call [checkStatus()] only, so whether the dependency trackers
    replay to them on registration makes no difference to this state. *)
Definition createSetupStatusTracker (d : Dependencies) : World :=
  startChecking
    {| dependencies := d; status := ValueEmitter.createValueEmitter;
       checkStatus_timeout := None; immediates := []; microtasks := [];
       timeout := None; timers := []; next_timeout := 0 |}.

(** [status()] (lines 185-187). *)
Definition status_of (w : World) : option SetupStatus :=
  ValueEmitter.value (status w).

(** [onChange(callback)] (lines 188-190). *)
Definition onChange (cb : ValueEmitter.Callback SetupStatus) (w : World)
    : Exit * World :=
  let '(x, c) := ValueEmitter.onChange cb (status w) in (x, with_status c w).

(** [dispose()] (lines 191-197), as far as this tracker goes. *)
Definition dispose (w : World) : World := clearTimeout (timeout w) w.

Inductive Event : Type :=
| DependenciesChange (d : Dependencies)
    (* the dependency trackers answer differently from now on *)
| DependencyNotifies       (* an observer of lines 157-167 is called *)
| CheckNow                 (* line 182 *)
| FireTimeout (h : Timeout)
| RunImmediate
| RunMicrotask
| Subscribe (cb : ValueEmitter.Callback SetupStatus)
| Cell (e : ValueEmitter.Event SetupStatus)
| Dispose.

Definition step (e : Event) (w : World) : option World :=
  match e with
  | DependenciesChange d => Some (with_dependencies d w)
  | DependencyNotifies => Some (checkStatus w)
  | CheckNow => Some (checkStatusNow w)
  | FireTimeout h =>
      if decide (h ∈ timers w)
      then Some (startChecking
                   (with_timers (filter (fun h' => h' <> h) (timers w)) w))
      else None
  | RunImmediate =>
      match immediates w with
      | [] => None
      | CheckArrow :: q =>
          Some (OnceImmediate.immediateArrow host unitOfWork
                  (with_immediates q w))
      end
  | RunMicrotask =>
      match microtasks w with
      | [] => None
      | AfterAwait :: q =>
          Some (OnceImmediate.enqueueFinally host Fulfils
                  (with_microtasks q w))
      | FinallyArrow _ :: q =>
          Some (OnceImmediate.finallyArrow host (with_microtasks q w))
      end
  | Subscribe cb => Some (snd (onChange cb w))
  | Cell e =>
      if ValueEmitter.internal e
      then c ← ValueEmitter.step e (status w); Some (with_status c w)
      else None
  | Dispose => Some (dispose w)
  end.

(** Until [dispose()], exactly one timer is armed, and it is the one
    whose handle line 169 holds. *)
Definition alive (w : World) : Prop :=
  exists h, timeout w = Some h /\ timers w = [h].

(** A reading with [waiting_for_dependencies] taken for [ok]. *)
Definition settled (s : option SetupStatus) : option SetupStatus :=
  match s with
  | Some waiting_for_dependencies => Some ok
  | _ => s
  end.

Definition settled_all (d : Dependencies) : Dependencies :=
  {| cliTracker := settled (cliTracker d);
     awsProfileTracker := settled (awsProfileTracker d);
     authTracker := settled (authTracker d);
     licenseTracker := settled (licenseTracker d) |}.

(** Dependencies that are all there, one of them waiting. *)
Definition waitingDependencies : Dependencies :=
  {| cliTracker := Some ok; awsProfileTracker := Some ok;
     authTracker := Some waiting_for_dependencies;
     licenseTracker := Some waiting_for_dependencies |}.

End SetupStatusTracker.

(** ** [setup.ts]: the docker image *)

From Stdlib Require String Ascii.

Module DockerImage.
Import Stdlib.Strings.String.
Local Open Scope string_scope.

(** The prefix lines 51-52 look for. *)
Definition BUILD_VERSION : string := "LOCALSTACK_BUILD_VERSION=".

(** [line.startsWith(p)]. *)
Definition startsWith (p line : string) : bool := prefix p line.

(** [s.slice(n)], for [n] within the string or at its end. *)
Fixpoint slice (n : nat) (s : string) : string :=
  match n, s with
  | 0, _ => s
  | S n', String _ s' => slice n' s'
  | S _, EmptyString => EmptyString
  end.

(** One element of what [InspectSchema] (lines 27-33) accepts:
    [Config.Env]. *)
Record Inspected : Set := { Env : list string }.

(** What lines 39-48 come to: [exec] fails, its output is not JSON, it
    does not fit the schema, or it is parsed. *)
Inductive Inspect : Set :=
| ExecFails
| NotJson
| NotInspectSchema
| Parsed (data : list Inspected).

(** Lines 49-56, on parsed data. *)
Definition imageVersion (data : list Inspected) : option string :=
  let env := match data with
             | first :: _ => Env first
             | []%list => []%list
             end in
  match find (startsWith BUILD_VERSION) env with
  | None => None
  | Some line =>
      let imageVersion := slice (length BUILD_VERSION) line in
      if String.eqb imageVersion "" then None else Some imageVersion
  end.

(** [getDockerImageSemverVersion] (lines 35-62): the version, and whether
    the error lines 58-59 were written. *)
Definition getDockerImageSemverVersion (i : Inspect)
    : option string * bool :=
  match i with
  | Parsed data => (imageVersion data, false)
  | ExecFails | NotJson | NotInspectSchema => (None, true)
  end.

(** [updateDockerImage] (lines 17-25): whether [docker pull] is spawned.
    [pullDockerImage] (lines 64-78) catches whatever [spawn] throws. *)
Definition updateDockerImage (i : Inspect) : bool :=
  match fst (getDockerImageSemverVersion i) with
  | None => true
  | Some _ => false
  end.

End DockerImage.

(** ** The file status tracker ([createFileStatusTracker]) *)

Module FileStatusTracker.
Import SetupStatusTracker(SetupStatus, ok, setup_required,
                          waiting_for_dependencies).

(** How a call of [check] completes: it returns a status, throws, or
    returns a promise (which the environment settles later). *)
Inductive CheckResult : Set :=
| CheckReturns (v : option SetupStatus)
| CheckThrows
| CheckPromise.

Inductive CheckSettle : Set :=
| CheckFulfils (v : option SetupStatus)
| CheckRejects.

Inductive Macrotask : Set := UpdateArrow.

Inductive Microtask : Set :=
| AfterAwait (newStatus : option SetupStatus)
    (* line 34 goes on after [await], with the status checked *)
| FinallyArrow (s : Settle).

Record World : Type := {
  status : ValueEmitter.World SetupStatus;
  updateStatus_timeout : option Immediate;  (* the flag of [updateStatus] *)
  immediates : list Macrotask;
  microtasks : list Microtask;
  awaiting : bool;       (* the promise [check()] returned is pending *)
  checks : nat;          (* calls of [check] so far *)
  unhandled : nat;       (* rejections nobody handles *)
}.

Definition with_status (c : ValueEmitter.World SetupStatus) (w : World)
    : World :=
  {| status := c; updateStatus_timeout := updateStatus_timeout w;
     immediates := immediates w; microtasks := microtasks w;
     awaiting := awaiting w; checks := checks w; unhandled := unhandled w |}.

Definition with_updateStatus_timeout (t : option Immediate) (w : World)
    : World :=
  {| status := status w; updateStatus_timeout := t;
     immediates := immediates w; microtasks := microtasks w;
     awaiting := awaiting w; checks := checks w; unhandled := unhandled w |}.

Definition with_immediates (q : list Macrotask) (w : World) : World :=
  {| status := status w; updateStatus_timeout := updateStatus_timeout w;
     immediates := q; microtasks := microtasks w;
     awaiting := awaiting w; checks := checks w; unhandled := unhandled w |}.

Definition with_microtasks (q : list Microtask) (w : World) : World :=
  {| status := status w; updateStatus_timeout := updateStatus_timeout w;
     immediates := immediates w; microtasks := q;
     awaiting := awaiting w; checks := checks w; unhandled := unhandled w |}.

Definition with_awaiting (b : bool) (w : World) : World :=
  {| status := status w; updateStatus_timeout := updateStatus_timeout w;
     immediates := immediates w; microtasks := microtasks w;
     awaiting := b; checks := checks w; unhandled := unhandled w |}.

Definition with_checks (n : nat) (w : World) : World :=
  {| status := status w; updateStatus_timeout := updateStatus_timeout w;
     immediates := immediates w; microtasks := microtasks w;
     awaiting := awaiting w; checks := n; unhandled := unhandled w |}.

Definition with_unhandled (n : nat) (w : World) : World :=
  {| status := status w; updateStatus_timeout := updateStatus_timeout w;
     immediates := immediates w; microtasks := microtasks w;
     awaiting := awaiting w; checks := checks w; unhandled := n |}.

Definition host : OnceImmediate.Host World :=
  {| OnceImmediate.timeout := updateStatus_timeout;
     OnceImmediate.set_timeout := with_updateStatus_timeout;
     OnceImmediate.setImmediate := fun w =>
       with_immediates (immediates w ++ [UpdateArrow]) w;
     (* the unit of work is an async function: it never throws *)
     OnceImmediate.uncaughtException := fun w => w;
     OnceImmediate.enqueueFinally := fun s w =>
       with_microtasks (microtasks w ++ [FinallyArrow s]) w;
     (* the promise of the async arrow settles in a later step *)
     OnceImmediate.awaitSettlement := fun w => w |}.

(** [updateStatus] (lines 33-36). *)
Definition updateStatus : World -> World :=
  OnceImmediate.createOnceImmediate host.

(** [createFileStatusTracker] (lines 31-57): the cell, the scheduler, and
    the first check scheduled by line 57. *)
Definition createFileStatusTracker : World :=
  updateStatus
    {| status := ValueEmitter.createValueEmitter;
       updateStatus_timeout := None; immediates := []; microtasks := [];
       awaiting := false; checks := 0; unhandled := 0 |}.

(** [status()] (lines 60-62). *)
Definition status_of (w : World) : option SetupStatus :=
  ValueEmitter.value (status w).

(** [onChange(callback)] (lines 63-65). *)
Definition onChange (cb : ValueEmitter.Callback SetupStatus) (w : World)
    : Exit * World :=
  let '(x, c) := ValueEmitter.onChange cb (status w) in (x, with_status c w).

Inductive Event : Type :=
| FileEvent                (* the watcher reports a change, unlink or add *)
| Check                    (* [check()] (lines 69-71) *)
| RunImmediate
| RunMicrotask
| SettleCheck (r : CheckSettle)  (* the promise [check()] returned settles *)
| Subscribe (cb : ValueEmitter.Callback SetupStatus)
| Cell (e : ValueEmitter.Event SetupStatus).

(** What is scheduled or running of [updateStatus]. *)
Definition in_flight (w : World) : nat :=
  length (immediates w) + length (microtasks w) +
  (if awaiting w then 1 else 0).

(** The flag is set exactly while one check is scheduled or running. *)
Definition flag_tells (w : World) : Prop :=
  match updateStatus_timeout w with
  | None => in_flight w = 0
  | Some _ => in_flight w = 1
  end.

(** How often [updateStatus()] is called from outside in an execution. *)
Fixpoint requests (es : list Event) : nat :=
  match es with
  | [] => 0
  | FileEvent :: es' | Check :: es' => S (requests es')
  | _ :: es' => requests es'
  end.

Section Tracker.
(** The behaviour of the [k]-th call of [check]. *)
Variable check : nat -> CheckResult.

(** The async arrow of line 33, called: [check()] is called; a throw
    rejects the promise of the arrow at once, anything else is awaited. *)
Definition unitOfWork (w : World) : Completion * World :=
  let k := checks w in
  let w1 := with_checks (S k) w in
  match check k with
  | CheckThrows => (ReturnsSettled Rejects, w1)
  | CheckReturns v =>
      (ReturnsPending, with_microtasks (microtasks w1 ++ [AfterAwait v]) w1)
  | CheckPromise => (ReturnsPending, with_awaiting true w1)
  end.

Definition step (e : Event) (w : World) : option World :=
  match e with
  | FileEvent | Check => Some (updateStatus w)
  | RunImmediate =>
      match immediates w with
      | [] => None
      | UpdateArrow :: q =>
          Some (OnceImmediate.immediateArrow host unitOfWork
                  (with_immediates q w))
      end
  | RunMicrotask =>
      match microtasks w with
      | [] => None
      | AfterAwait v :: q =>
          (* line 35, and the arrow ends *)
          let w1 := with_microtasks q w in
          Some (OnceImmediate.enqueueFinally host Fulfils
                  (with_status (ValueEmitter.setValue v (status w1)) w1))
      | FinallyArrow s :: q =>
          let w' := OnceImmediate.finallyArrow host (with_microtasks q w) in
          Some match s with
               | Fulfils => w'
               | Rejects => with_unhandled (S (unhandled w')) w'
               end
      end
  | SettleCheck r =>
      if awaiting w then
        let w1 := with_awaiting false w in
        Some match r with
             | CheckFulfils v =>
                 with_microtasks (microtasks w1 ++ [AfterAwait v]) w1
             | CheckRejects =>
                 OnceImmediate.enqueueFinally host Rejects w1
             end
      else None
  | Subscribe cb => Some (snd (onChange cb w))
  | Cell e =>
      if ValueEmitter.internal e
      then c ← ValueEmitter.step e (status w); Some (with_status c w)
      else None
  end.

End Tracker.

(** A check that throws the first time it is called and reports
    [setup_required] afterwards. *)
Definition failingOnce (k : nat) : CheckResult :=
  match k with
  | 0 => CheckThrows
  | S _ => CheckReturns (Some setup_required)
  end.

End FileStatusTracker.

(** ** The status bar plugin *)

Module StatusBar.
Import Stdlib.Strings.String.
Import SetupStatusTracker(SetupStatus, ok, setup_required,
                          waiting_for_dependencies).
Import InstanceStatusTracker(LocalStackInstanceStatus, starting, running,
                             stopping, stopped).
Local Open Scope string_scope.

(** The string a [LocalStackInstanceStatus] is. *)
Definition statusName (s : LocalStackInstanceStatus) : string :=
  match s with
  | starting => "starting"
  | running => "running"
  | stopping => "stopping"
  | stopped => "stopped"
  end.

(** [getOverallStatusText] (lines 9-23). *)
Definition getOverallStatusText (cliStatus : SetupStatus)
    (localStackStatus : LocalStackInstanceStatus)
    (cliOutdated : option bool) : string :=
  if decide (cliStatus = ok) then statusName localStackStatus
  else if default false cliOutdated then "CLI outdated"
  else "CLI not installed".

(** What the trackers answer at the moment: [setupStatusTracker.status()],
    [localStackStatusTracker.status()], [cliStatusTracker.status()] and
    [cliStatusTracker.outdated()]. *)
Record Readings : Set := {
  setupStatus : option SetupStatus;
  localStackStatus : option LocalStackInstanceStatus;
  cliStatus : option SetupStatus;
  cliOutdated : option bool;
}.

(** A [QuickPickItem] with its command; [separator] stands for
    [kind: QuickPickItemKind.Separator]. *)
Record Item : Set := {
  label : string;
  command : string;
  separator : bool;
}.

(** Lines 37-44. *)
Definition shouldShowLocalStackStart (r : Readings) : bool :=
  bool_decide (cliStatus r = Some ok) &&
  bool_decide (localStackStatus r = Some stopped).

Definition shouldShowLocalStackStop (r : Readings) : bool :=
  bool_decide (cliStatus r = Some ok) &&
  bool_decide (localStackStatus r = Some running).

Definition shouldShowRunSetupWizard (r : Readings) : bool :=
  bool_decide (setupStatus r = Some setup_required).

(** [getCommands] (lines 46-88): the pushes, in order. *)
Definition getCommands (r : Readings) : list Item :=
  ([ {| label := "Configure"; command := ""; separator := true |} ] ++
   (if shouldShowRunSetupWizard r
    then [ {| label := "Run LocalStack Setup Wizard";
              command := "localstack.setup"; separator := false |} ]
    else []) ++
   [ {| label := "Manage"; command := ""; separator := true |} ] ++
   (if shouldShowLocalStackStart r
    then [ {| label := "Start LocalStack"; command := "localstack.start";
              separator := false |} ]
    else []) ++
   (if shouldShowLocalStackStop r
    then [ {| label := "Stop LocalStack"; command := "localstack.stop";
              separator := false |} ]
    else []) ++
   [ {| label := "View Logs"; command := "localstack.viewLogs";
        separator := false |} ])%list.

(** Whether a list of items offers a command. *)
Definition offers (cmd : string) (items : list Item) : bool :=
  existsb (fun i => String.eqb (command i) cmd) items.

(** The fields of the status bar item that [renderStatusBar] writes;
    [backgroundColor] holds the id of the [ThemeColor]. *)
Record StatusBarItem : Set := {
  bar_command : option string;
  backgroundColor : option string;
  text : string;
  tooltip : option string;
}.

(** The unit of work of [renderStatusBar] (lines 100-141); the trace line
    is not modelled. *)
Definition renderStatusBar (r : Readings) (statusBarItem : StatusBarItem)
    : StatusBarItem :=
  match setupStatus r, localStackStatus r, cliStatus r with
  | Some setupStatus, Some localStackStatus, Some cliStatus =>
      let shouldSpin :=
        bool_decide (localStackStatus = starting) ||
        bool_decide (localStackStatus = stopping) in
      let icon :=
        if decide (setupStatus = setup_required) then "$(error)"
        else if shouldSpin then "$(sync~spin)"
        else "$(localstack-logo)" in
      let statusText :=
        getOverallStatusText cliStatus localStackStatus (cliOutdated r) in
      {| bar_command := Some "localstack.showCommands";
         backgroundColor :=
           if decide (setupStatus = setup_required)
           then Some "statusBarItem.errorBackground"
           else None;
         text := icon ++ " LocalStack: " ++ statusText;
         tooltip := Some "Show LocalStack commands" |}
  | _, _, _ => statusBarItem
  end.

End StatusBar.

(** * Properties *)

(** ** The coalescing scheduler *)

Module OnceImmediateFacts.
Import OnceImmediate.

Lemma createOnceImmediate_set {W : Type} (h : Host W) (w : W) (i : Immediate) :
  timeout h w = Some i -> createOnceImmediate h w = w.
Proof. unfold createOnceImmediate. intros ->. reflexivity. Qed.

Lemma createOnceImmediate_clear {W : Type} (h : Host W) (w : W) :
  timeout h w = None ->
  createOnceImmediate h w = set_timeout h (Some ImmediateHandle) (setImmediate h w).
Proof. unfold createOnceImmediate. intros ->. reflexivity. Qed.

Lemma trigger_set (w : World) (i : Immediate) :
  timeout_var w = Some i -> trigger w = w.
Proof. apply (createOnceImmediate_set host). Qed.

Lemma trigger_iter_set (n : nat) (w : World) (i : Immediate) :
  timeout_var w = Some i -> Nat.iter n trigger w = w.
Proof.
  intros Hset. induction n as [|n IH]; simpl; [reflexivity|].
  rewrite IH. eapply trigger_set, Hset.
Qed.

Section AnyWork.
Variable unitOfWork : nat -> Work.

Lemma step_one_run (e : Event) (w w' : World) :
  one_run w -> step unitOfWork e w = Some w' -> one_run w'.
Proof.
  destruct w as [t imm mic pen rn unc unh].
  unfold one_run, in_flight. destruct e; simpl.
  - intros Hinv [= <-]. unfold trigger, createOnceImmediate. simpl.
    destruct t; simpl in *; [exact Hinv|].
    rewrite length_app. simpl. lia.
  - destruct imm as [|[] q]; [discriminate|]. simpl.
    intros Hinv [= <-].
    destruct t as [i|]; simpl in Hinv; [|lia].
    unfold immediateArrow, callback. simpl.
    rewrite (trigger_iter_set _ _ i) by reflexivity.
    destruct (completes _); simpl; rewrite ?length_app; simpl; lia.
  - destruct pen as [|n]; [discriminate|]. intros Hinv [= <-]. simpl.
    destruct t; simpl in *; rewrite ?length_app; simpl; lia.
  - destruct mic as [|[s] q]; [discriminate|]. intros Hinv [= <-].
    destruct t; simpl in Hinv; [|lia].
    destruct s; simpl; lia.
Qed.

Lemma exec_one_run (es : list Event) (w w' : World) :
  one_run w -> exec (step unitOfWork) es w = Some w' -> one_run w'.
Proof.
  revert w. induction es as [|e es IH]; simpl; intros w Hinv.
  - intros [= <-]. exact Hinv.
  - destruct (step unitOfWork e w) as [w1|] eqn:Hstep; [|discriminate].
    apply IH. eapply step_one_run; eauto.
Qed.

Lemma reachable_one_run (es : list Event) (w : World) :
  exec (step unitOfWork) es init = Some w -> one_run w.
Proof. apply exec_one_run. reflexivity. Qed.

(** Whichever way the promise of the unit of work settles, the [finally]
    reaction clears the flag, and the next trigger schedules a run. *)
Lemma settlement_clears_flag (s : Settle) (w : World) (n : nat) :
  pending w = S n -> microtasks w = [] ->
  exists w',
    exec (step unitOfWork) [SettleWork s; RunMicrotask] w = Some w' /\
    timeout_var w' = None /\
    immediates (trigger w') = immediates w ++ [ImmediateArrow].
Proof.
  destruct w as [t imm mic pen rn unc unh]. simpl. intros -> ->.
  destruct s; eexists; (split; [reflexivity|]); split; reflexivity.
Qed.

(** C2, as the code has it: the pending flag stays set from the first
    [trigger()] until the result of the unit of work has settled and the
    [finally] handler has run.  In every execution, while a run is pending
    or executing the flag is set and [trigger()] changes nothing; when the
    scheduled run begins the flag is still set, so calls the unit of work
    makes to [trigger()] schedule nothing; the flag is cleared by the
    [finally] handler only, and the first [trigger()] after it schedules a
    new run. *)
Theorem trigger_merged_until_run_completes (es : list Event) (w : World) :
  exec (step unitOfWork) es init = Some w ->
  0 < in_flight w ->
  timeout_var w = Some ImmediateHandle /\
  trigger w = w /\
  (forall w', step unitOfWork RunImmediate w = Some w' ->
     timeout_var w' = Some ImmediateHandle /\ immediates w' = [] /\
     runs w' = S (runs w)) /\
  (forall w', step unitOfWork RunMicrotask w = Some w' ->
     timeout_var w' = None /\ immediates (trigger w') = [ImmediateArrow]).
Proof.
  intros Hreach Hbusy. apply reachable_one_run in Hreach.
  destruct w as [t imm mic pen rn unc unh].
  unfold one_run, in_flight in *. simpl in *.
  destruct t as [[]|]; [|lia].
  split; [reflexivity|]. split; [reflexivity|]. split.
  - intros w'. destruct imm as [|[] q]; [discriminate|]. simpl in *.
    intros [= <-]. unfold immediateArrow, callback. simpl.
    rewrite (trigger_iter_set _ _ ImmediateHandle) by reflexivity.
    assert (q = []) as -> by (destruct q; [reflexivity|simpl in *; lia]).
    destruct (completes _); simpl; auto.
  - intros w'. destruct mic as [|[s] q]; [discriminate|]. simpl in *.
    intros [= <-].
    assert (imm = []) as -> by (destruct imm; [reflexivity|simpl in *; lia]).
    destruct s; simpl; auto.
Qed.

End AnyWork.

Lemma trigger_merged_until_run_completes_witness :
  timeout_var (trigger init) = Some ImmediateHandle /\
  trigger (trigger init) = trigger init /\
  (forall w', step reentrantWork RunImmediate (trigger init) = Some w' ->
     timeout_var w' = Some ImmediateHandle /\ immediates w' = [] /\
     runs w' = S (runs (trigger init))) /\
  (forall w', step reentrantWork RunMicrotask (trigger init) = Some w' ->
     timeout_var w' = None /\ immediates (trigger w') = [ImmediateArrow]).
Proof.
  apply (trigger_merged_until_run_completes reentrantWork [Trigger]).
  - reflexivity.
  - vm_compute. lia.
Defined.

(** C2, as stated, fails: when the scheduled run begins the flag is still
    set.  The unit of work calls [trigger()] while it runs, and [trigger()]
    is called once more while its promise is pending; neither schedules a
    run, and once the promise has settled and the flag is clear nothing is
    queued: the unit of work ran once. *)
Lemma trigger_during_run_is_swallowed :
  exists w1 w2 w3,
    exec (step reentrantWork) [Trigger; RunImmediate] init = Some w1 /\
    timeout_var w1 = Some ImmediateHandle /\ immediates w1 = [] /\
    step reentrantWork Trigger w1 = Some w2 /\ immediates w2 = [] /\
    exec (step reentrantWork) [SettleWork Fulfils; RunMicrotask] w2 = Some w3 /\
    timeout_var w3 = None /\ immediates w3 = [] /\ runs w3 = 1 /\
    in_flight w3 = 0.
Proof. do 3 eexists. repeat (split; [reflexivity|]). reflexivity. Qed.

Lemma wedged_step (work : nat -> Work) (e : Event) (w w' : World) :
  wedged w -> step work e w = Some w' -> w' = w.
Proof.
  destruct w as [t imm mic pen rn unc unh]. unfold wedged, in_flight.
  simpl. intros [-> Hnone].
  destruct imm; [|simpl in Hnone; lia].
  destruct mic; [|simpl in Hnone; lia].
  destruct pen; [|simpl in Hnone; lia].
  destruct e; simpl; try discriminate. intros [= <-]. reflexivity.
Qed.

Lemma wedged_exec (work : nat -> Work) (es : list Event) (w w' : World) :
  wedged w -> exec (step work) es w = Some w' -> w' = w.
Proof.
  revert w. induction es as [|e es IH]; simpl; intros w Hw.
  - intros [= <-]. reflexivity.
  - destruct (step work e w) as [w1|] eqn:Hstep; [|discriminate].
    apply (wedged_step _ _ _ _ Hw) in Hstep. subst w1. apply IH, Hw.
Qed.

(** C7, where the code breaks it: a unit of work that throws leaves the
    flag set for good.  After the run in which it threw, whatever happens
    next ([trigger()] called any number of times included), the flag is
    still set, nothing is queued and the unit of work has run once. *)
Theorem sync_throw_wedges_scheduler (es : list Event) (w : World) :
  exec (step throwingWork) (Trigger :: RunImmediate :: es) init = Some w ->
  timeout_var w = Some ImmediateHandle /\ immediates w = [] /\
  runs w = 1 /\ uncaught w = 1.
Proof.
  change (exec (step throwingWork) (Trigger :: RunImmediate :: es) init)
    with (exec (step throwingWork) es
            (with_uncaught 1 (with_runs 1 (with_timeout (Some ImmediateHandle) init)))).
  intros Hexec. apply wedged_exec in Hexec; [|split; reflexivity].
  subst w. repeat split.
Qed.

Lemma sync_throw_wedges_scheduler_witness :
  exists w,
    exec (step throwingWork) [Trigger; RunImmediate; Trigger; Trigger] init
      = Some w /\
    timeout_var w = Some ImmediateHandle /\ immediates w = [] /\
    runs w = 1 /\ uncaught w = 1.
Proof.
  eexists. split; [reflexivity|].
  apply (sync_throw_wedges_scheduler [Trigger; Trigger]). reflexivity.
Defined.

End OnceImmediateFacts.

(** ** The value cell *)

Module ValueEmitterFacts.
Import ValueEmitter.

Section Facts.
Context {T : Type} `{EqDecision T}.
Implicit Types (w : World T) (cb : Callback T) (v : option T).
Implicit Types (cbs : list (Callback T)) (L : list (Delivery T)).

(** What one stretch of the loop does: it calls [k] callbacks in a row and
    either reaches the end of the array or suspends. *)
Lemma forOf_spec (rest : list (Callback T)) (i : nat) w :
  forOf rest i w =
    (true, with_deliveries
             (deliveries w ++ fanned (currentValue w) rest) w) \/
  exists k, 0 < k <= length rest /\
    let w1 :=
      with_deliveries
        (deliveries w ++ fanned (currentValue w) (take k rest)) w in
    (forOf rest i w =
       (false, with_microtasks (microtasks w ++ [Resume (i + k)]) w1) \/
     forOf rest i w = (false, with_awaiting (Some (i + k)) w1)).
Proof.
  revert i w. induction rest as [|cb rest IH]; intros i w.
  - left. destruct w. simpl. unfold with_deliveries. simpl.
    rewrite app_nil_r. reflexivity.
  - simpl. destruct (cb_call cb (currentValue w)) eqn:Hcall.
    + right. exists 1. split; [simpl; lia|]. left.
      rewrite Nat.add_1_r. destruct w. reflexivity.
    + destruct (IH (S i) (call FanOut cb w)) as [Hend|(k & Hk & Hsusp)].
      * left. rewrite Hend. destruct w. unfold with_deliveries, call. simpl.
        rewrite <- app_assoc. reflexivity.
      * right. exists (S k). split; [simpl; lia|].
        replace (i + S k) with (S i + k) by lia.
        destruct w. unfold with_deliveries, call in *. simpl in *.
        rewrite <- app_assoc in Hsusp. exact Hsusp.
    + right. exists 1. split; [simpl; lia|]. left.
      rewrite Nat.add_1_r. destruct w. reflexivity.
    + right. exists 1. split; [simpl; lia|]. right.
      rewrite Nat.add_1_r. destruct w. reflexivity.
Qed.

(** A stretch of the loop started at index [i] of a fan-out in progress
    leaves the fan-out further on. *)
Lemma forOf_phase L v cbs (i : nat) dl (finished : bool) w' :
  i <= length cbs -> dl = L ++ fanned v (take i cbs) ->
  forOf (drop i cbs) i (mk v cbs (Some ImmediateHandle) [] [] None dl)
    = (finished, w') ->
  if finished
  then w' = mk v cbs (Some ImmediateHandle) [] [] None (L ++ fanned v cbs)
  else exists m, m < 2 * (length cbs - i) + 2 /\ phase L v cbs m w'.
Proof.
  intros Hi -> Hrun.
  destruct (forOf_spec (drop i cbs) i
              (mk v cbs (Some ImmediateHandle) [] [] None
                 (L ++ fanned v (take i cbs))))
    as [Hend|(k & [Hk0 Hk] & Hsusp)].
  - rewrite Hend in Hrun. injection Hrun as <- <-.
    unfold with_deliveries, mk. simpl. f_equal.
    rewrite <- app_assoc. unfold fanned. rewrite <- map_app, take_drop.
    reflexivity.
  - rewrite length_drop in Hk.
    assert (Hlog : (L ++ fanned v (take i cbs)) ++
                   fanned v (take k (drop i cbs))
                   = L ++ fanned v (take (i + k) cbs)).
    { rewrite <- app_assoc. unfold fanned.
      rewrite <- map_app, take_take_drop. reflexivity. }
    simpl in Hsusp. destruct Hsusp as [Hsusp|Hsusp];
      rewrite Hsusp in Hrun; injection Hrun as <- <-;
      unfold with_microtasks, with_awaiting, with_deliveries, mk; simpl;
      rewrite Hlog.
    + eexists. split; [|apply (ph_resuming L v cbs (i + k)); [lia|reflexivity]].
      lia.
    + eexists. split; [|apply (ph_awaiting L v cbs (i + k)); [lia|reflexivity]].
      lia.
Qed.

(** Every event of the runtime moves a fan-out on. *)
Lemma phase_step L v cbs (m : nat) (e : Event T) w w' :
  phase L v cbs m w -> internal e = true -> step e w = Some w' ->
  exists m', m' < m /\ phase L v cbs m' w'.
Proof.
  intros Hph Hint Hstep.
  destruct Hph as [|i dl Hi Hdl|i dl Hi Hdl|s dl Hdl|dl Hdl];
    destruct e; try discriminate; simpl in Hstep; try discriminate.
  - (* the immediate runs *)
    injection Hstep as <-.
    unfold OnceImmediate.immediateArrow, unitOfWork. simpl.
    destruct (forOf cbs 0 _) as [finished w1] eqn:Hrun.
    pose proof (forOf_phase L v cbs 0 L finished w1) as Hnext.
    rewrite drop_0 in Hnext. unfold with_immediates in Hrun. simpl in Hrun.
    specialize (Hnext ltac:(lia)
                  ltac:(by rewrite take_0, app_nil_r) Hrun).
    destruct finished.
    + subst w1. exists 1. split; [lia|].
      apply (ph_finishing L v cbs Fulfils). reflexivity.
    + destruct Hnext as (m' & Hm' & Hph). exists m'. split; [lia|exact Hph].
  - (* the loop goes on after an await *)
    injection Hstep as <-. unfold resume. simpl.
    destruct (forOf (drop i cbs) i _) as [finished w1] eqn:Hrun.
    pose proof (forOf_phase L v cbs i dl finished w1 Hi Hdl Hrun) as Hnext.
    destruct finished.
    + subst w1. exists 1. split; [lia|].
      apply (ph_finishing L v cbs Fulfils). reflexivity.
    + exact Hnext.
  - (* the awaited promise settles *)
    injection Hstep as <-. eexists.
    split; [|apply (ph_resuming L v cbs i); eauto]. lia.
  - (* the finally handler *)
    injection Hstep as <-. exists 0. split; [lia|].
    apply ph_idle. exact Hdl.
Qed.

Lemma phase_exec L v cbs (m : nat) (es : list (Event T)) w w' :
  phase L v cbs m w -> Forall (fun e => internal e = true) es ->
  exec step es w = Some w' ->
  exists m', m' <= m /\ phase L v cbs m' w'.
Proof.
  revert m w. induction es as [|e es IH]; simpl; intros m w Hph Hint.
  - intros [= <-]. exists m. split; [lia|exact Hph].
  - destruct (step e w) as [w1|] eqn:Hstep; [|discriminate].
    inversion_clear Hint as [|? ? He Hes].
    destruct (phase_step _ _ _ _ _ _ _ Hph He Hstep) as (m1 & Hm1 & Hph1).
    intros Hexec.
    destruct (IH _ _ Hph1 Hes Hexec) as (m' & Hm' & Hph').
    exists m'. split; [lia|exact Hph'].
Qed.

(** A fan-out that has come to rest has called every observer once, in
    registration order, with the value it was scheduled for. *)
Lemma phase_idle L v cbs (m : nat) w :
  phase L v cbs m w -> idle w ->
  w = mk v cbs None [] [] None (L ++ fanned v cbs).
Proof.
  intros Hph (Ht & _). destruct Hph; try discriminate. subst. reflexivity.
Qed.

Lemma phase_rest L v cbs w :
  phase L v cbs 0 w -> w = mk v cbs None [] [] None (L ++ fanned v cbs).
Proof.
  intros Hph. remember 0 as m eqn:Hm.
  destruct Hph; try lia. subst. reflexivity.
Qed.

(** Left alone, the event loop brings a fan-out to rest. *)
Lemma phase_settle L v cbs (fuel m : nat) w :
  phase L v cbs m w -> m <= fuel ->
  let '(es, w') := settle fuel w in
  Forall (fun e => internal e = true) es /\
  exec step es w = Some w' /\ phase L v cbs 0 w'.
Proof.
  revert m w. induction fuel as [|fuel IH]; intros m w Hph Hm.
  - simpl. assert (m = 0) as -> by lia. auto.
  - simpl.
    assert (Hnext : m = 0 /\ next w = None \/
                    exists e, next w = Some e /\ internal e = true /\
                              is_Some (step e w)).
    { destruct Hph; simpl.
      - right. exists RunImmediate. auto.
      - right. exists RunMicrotask. auto.
      - right. exists (SettleCallback Fulfils). auto.
      - right. exists RunMicrotask. auto.
      - left. auto. }
    destruct Hnext as [[-> ->]|(e & -> & He & [w1 Hstep])].
    + auto.
    + rewrite Hstep.
      destruct (phase_step _ _ _ _ _ _ _ Hph He Hstep) as (m1 & Hm1 & Hph1).
      specialize (IH m1 w1 Hph1 ltac:(lia)).
      destruct (settle fuel w1) as [es w']. destruct IH as (Hes & Hexec & Hph').
      split; [constructor; assumption|]. split; [|exact Hph'].
      simpl. rewrite Hstep. exact Hexec.
Qed.

(** *** Bursts of writes *)

Lemma setValue_same v w : currentValue w = v -> setValue v w = w.
Proof.
  unfold setValue. intros Heq.
  destruct (decide (currentValue w <> v)) as [Hne|_];
    [contradiction|reflexivity].
Qed.

Lemma setValues_same (vs : list (option T)) w :
  Forall (fun v => v = currentValue w) vs -> setValues vs w = w.
Proof.
  unfold setValues. induction 1 as [|v vs Hv _ IH]; simpl; [reflexivity|].
  rewrite setValue_same by congruence. exact IH.
Qed.

Lemma setValue_scheduled L v cbs (x : option T) :
  setValue x (mk v cbs (Some ImmediateHandle) [EmitArrow] [] None L)
    = mk x cbs (Some ImmediateHandle) [EmitArrow] [] None L.
Proof.
  unfold setValue. simpl.
  destruct (decide (v <> x)) as [Hne|Heq]; [reflexivity|].
  destruct (decide (v = x)) as [->|]; [reflexivity|contradiction].
Qed.

Lemma setValues_scheduled L v cbs (vs : list (option T)) :
  setValues vs (mk v cbs (Some ImmediateHandle) [EmitArrow] [] None L)
    = mk (default v (last vs)) cbs (Some ImmediateHandle) [EmitArrow] [] None L.
Proof.
  unfold setValues. revert v. induction vs as [|x vs IH]; intros v; simpl.
  - reflexivity.
  - rewrite setValue_scheduled, IH. f_equal.
    destruct vs as [|y vs]; [reflexivity|].
    rewrite last_cons_cons. destruct (last (y :: vs)) eqn:Hlast; [reflexivity|].
    apply last_None in Hlast. discriminate.
Qed.

Lemma setValue_idle v w :
  idle w -> currentValue w <> v ->
  setValue v w =
    mk v (callbacks w) (Some ImmediateHandle) [EmitArrow] [] None
      (deliveries w).
Proof.
  intros (Ht & Hi & Hm & Ha) Hne. unfold setValue.
  destruct (decide (currentValue w <> v)); [|contradiction].
  destruct w. simpl in *. subst. reflexivity.
Qed.

(** A burst with at least one value that differs from the cell's leaves
    one fan-out scheduled, for the last value written. *)
Lemma setValues_idle (vs : list (option T)) v w :
  idle w -> last vs = Some v ->
  Exists (fun x => x <> currentValue w) vs ->
  setValues vs w =
    mk v (callbacks w) (Some ImmediateHandle) [EmitArrow] [] None
      (deliveries w).
Proof.
  intros Hidle Hlast Hex. revert Hlast.
  induction Hex as [x vs Hx|x vs Hex IH]; intros Hlast.
  - unfold setValues. simpl. fold (setValues vs (setValue x w)).
    rewrite setValue_idle by (auto; congruence).
    rewrite setValues_scheduled. f_equal.
    destruct vs as [|y vs]; [simpl in *; congruence|].
    rewrite last_cons_cons in Hlast. rewrite Hlast. reflexivity.
  - destruct (decide (x = currentValue w)) as [Heq|Hne].
    + unfold setValues. simpl. fold (setValues vs (setValue x w)).
      rewrite setValue_same by congruence. apply IH.
      destruct vs as [|y vs]; [inversion Hex|].
      rewrite last_cons_cons in Hlast. exact Hlast.
    + unfold setValues. simpl. fold (setValues vs (setValue x w)).
      rewrite setValue_idle by (auto; congruence).
      rewrite setValues_scheduled. f_equal.
      destruct vs as [|y vs]; [simpl in *; congruence|].
      rewrite last_cons_cons in Hlast. rewrite Hlast. reflexivity.
Qed.

Lemma phase_deliveries L v cbs (m : nat) w :
  phase L v cbs m w ->
  currentValue w = v /\ callbacks w = cbs /\
  exists k, deliveries w = L ++ fanned v (take k cbs).
Proof.
  intros Hph. split; [|split]; [destruct Hph; reflexivity..|].
  destruct Hph; subst; simpl.
  - exists 0. by rewrite take_0, app_nil_r.
  - eauto.
  - eauto.
  - exists (length cbs). by rewrite firstn_all.
  - exists (length cbs). by rewrite firstn_all.
Qed.

(** At rest the runtime has nothing to run. *)
Lemma idle_exec (es : list (Event T)) w w' :
  idle w -> Forall (fun e => internal e = true) es ->
  exec step es w = Some w' -> w' = w.
Proof.
  intros (Ht & Hi & Hm & Ha) Hes.
  destruct Hes as [|e es He _]; simpl; [congruence|].
  destruct e; try discriminate; simpl; rewrite ?Hi, ?Hm, ?Ha; discriminate.
Qed.

(** One write to a cell at rest, and the fan-out it causes, if any. *)
Lemma single_write v (es : list (Event T)) w w' :
  idle w -> Forall (fun e => internal e = true) es ->
  exec step es (setValue v w) = Some w' -> idle w' ->
  currentValue w' = v /\ callbacks w' = callbacks w /\
  exists ds, deliveries w' = deliveries w ++ ds /\
    (ds = [] \/ v <> currentValue w /\ ds = fanned v (callbacks w)).
Proof.
  intros Hidle Hes Hexec Hidle'.
  destruct (decide (currentValue w = v)) as [Heq|Hne].
  - rewrite setValue_same in Hexec by exact Heq.
    apply idle_exec in Hexec; [|assumption..]. subst w'.
    repeat split; [exact Heq|]. exists []. rewrite app_nil_r. auto.
  - rewrite setValue_idle in Hexec by assumption.
    destruct (phase_exec _ _ _ _ _ _ _
                (ph_scheduled (deliveries w) v (callbacks w)) Hes Hexec)
      as (m & _ & Hph).
    rewrite (phase_idle _ _ _ _ _ Hph Hidle'). simpl.
    repeat split. eexists. split; [reflexivity|]. right. split; congruence.
Qed.

Lemma setValues_pending (vs : list (option T)) v w :
  scheduled w -> last vs = Some v ->
  setValues vs w =
    mk v (callbacks w) (Some ImmediateHandle) [EmitArrow] [] None
      (deliveries w).
Proof.
  intros (Ht & Hi & Hm & Ha) Hlast. destruct w. simpl in *. subst.
  fold (mk currentValue0 callbacks0 (Some ImmediateHandle) [EmitArrow] []
          None deliveries0).
  rewrite setValues_scheduled, Hlast. reflexivity.
Qed.

(** C5, as the code has it: take a cell in which no fan-out is running,
    and a non-empty burst of [setValue] calls such that a fan-out is
    already scheduled or at least one written value differs from the value
    the cell held before the burst.  Then every registered observer gets
    exactly one change callback, carrying the last value written.  While
    the fan-out is under way nothing but that value is delivered; when it
    has come to rest, each observer has been called once, in registration
    order; and the event loop, left alone, brings it to rest. *)
Theorem burst_delivers_final_value_once (vs : list (option T)) v w :
  idle w /\ Exists (fun x => x <> currentValue w) vs \/ scheduled w ->
  last vs = Some v ->
  (forall (es : list (Event T)) w',
     Forall (fun e => internal e = true) es ->
     exec step es (setValues vs w) = Some w' ->
     (exists k,
        deliveries w' = deliveries w ++ fanned v (take k (callbacks w))) /\
     (idle w' -> deliveries w' = deliveries w ++ fanned v (callbacks w))) /\
  (let '(es, w') := settle (2 * length (callbacks w) + 3) (setValues vs w) in
   Forall (fun e => internal e = true) es /\
   exec step es (setValues vs w) = Some w' /\ idle w' /\
   deliveries w' = deliveries w ++ fanned v (callbacks w)).
Proof.
  intros Hstart Hlast.
  assert (Hburst : setValues vs w =
            mk v (callbacks w) (Some ImmediateHandle) [EmitArrow] [] None
              (deliveries w)).
  { destruct Hstart as [[Hidle Hex]|Hsched].
    - by apply setValues_idle.
    - by apply setValues_pending. }
  rewrite Hburst.
  pose proof (ph_scheduled (deliveries w) v (callbacks w)) as Hph.
  split.
  - intros es w' Hes Hexec.
    destruct (phase_exec _ _ _ _ _ _ _ Hph Hes Hexec) as (m & _ & Hph').
    split.
    + apply (phase_deliveries _ _ _ _ _ Hph').
    + intros Hidle'. rewrite (phase_idle _ _ _ _ _ Hph' Hidle'). reflexivity.
  - pose proof (phase_settle _ _ _ (2 * length (callbacks w) + 3) _ _ Hph
                  ltac:(lia)) as Hsettle.
    destruct (settle _ _) as [es w']. destruct Hsettle as (Hes & Hexec & Hph').
    apply phase_rest in Hph'. subst w'. by repeat split.
Qed.

(** Observers are only ever added, at the end of the array. *)
Lemma forOf_callbacks (rest : list (Callback T)) (i : nat) w :
  callbacks (snd (forOf rest i w)) = callbacks w.
Proof.
  destruct (forOf_spec rest i w) as [->|(k & _ & [->| ->])]; reflexivity.
Qed.

Lemma step_callbacks (e : Event T) w w' :
  step e w = Some w' ->
  callbacks w' =
    match e with OnChange cb => callbacks w ++ [cb] | _ => callbacks w end.
Proof.
  destruct e; simpl.
  - intros [= <-]. unfold setValue, emit, OnceImmediate.createOnceImmediate.
    destruct (decide _); [|reflexivity]. simpl. by destruct (timeout w).
  - intros [= <-]. unfold onChange. simpl.
    by destruct (cb_call cb (currentValue w)).
  - destruct (immediates w) as [|[] q]; [discriminate|]. intros [= <-].
    unfold OnceImmediate.immediateArrow, unitOfWork.
    pose proof (forOf_callbacks (callbacks (with_immediates q w)) 0
                  (with_immediates q w)) as Hc.
    destruct (forOf _ 0 _) as [[] w1]; simpl in *; exact Hc.
  - destruct (microtasks w) as [|[j|s] q]; [discriminate|..];
      intros [= <-]; [|reflexivity].
    unfold resume.
    pose proof (forOf_callbacks
                  (drop j (callbacks (with_microtasks q w))) j
                  (with_microtasks q w)) as Hc.
    destruct (forOf _ j _) as [[] w1]; simpl in *; exact Hc.
  - destruct (awaiting w); [|discriminate]. by intros [= <-].
Qed.

Lemma exec_callbacks (es : list (Event T)) w w' :
  exec step es w = Some w' ->
  exists after, callbacks w' = callbacks w ++ after.
Proof.
  revert w. induction es as [|e es IH]; cbn [exec]; intros w.
  - intros [= <-]. exists []. by rewrite app_nil_r.
  - destruct (step e w) as [w1|] eqn:Hstep; [|discriminate].
    intros Hexec. destruct (IH _ Hexec) as (after & ->).
    rewrite (step_callbacks _ _ _ Hstep).
    destruct e; eauto. rewrite <- app_assoc. eauto.
Qed.

(** A write to a cell at rest that changes its value is fanned out to
    every observer registered, in order, whatever the schedule; and the
    event loop, left alone, carries the fan-out through. *)
Lemma write_at_rest_is_fanned_out v w :
  idle w -> v <> currentValue w ->
  (forall (es : list (Event T)) w',
     Forall (fun e => internal e = true) es ->
     exec step es (setValue v w) = Some w' -> idle w' ->
     deliveries w' = deliveries w ++ fanned v (callbacks w)) /\
  (let '(es, w') := settle (2 * length (callbacks w) + 3) (setValue v w) in
   Forall (fun e => internal e = true) es /\
   exec step es (setValue v w) = Some w' /\ idle w' /\
   deliveries w' = deliveries w ++ fanned v (callbacks w)).
Proof.
  intros Hidle Hne.
  rewrite setValue_idle by (auto; congruence).
  pose proof (ph_scheduled (deliveries w) v (callbacks w)) as Hph.
  split.
  - intros es w' Hes Hexec Hidle'.
    destruct (phase_exec _ _ _ _ _ _ _ Hph Hes Hexec) as (m & _ & Hph').
    by rewrite (phase_idle _ _ _ _ _ Hph' Hidle').
  - pose proof (phase_settle _ _ _ (2 * length (callbacks w) + 3) _ _ Hph
                  ltac:(lia)) as Hsettle.
    destruct (settle _ _) as [es w']. destruct Hsettle as (Hes & Hexec & Hph').
    apply phase_rest in Hph'. subst w'. by repeat split.
Qed.

(** C10: [onChange] pushes the callback before it replays the current
    value to it.  A throw of the replay call leaves [onChange] ([Raised]);
    any other completion, a rejected promise included, ends [onChange]
    normally.  Either way the callback is registered and stays so,
    whatever happens to the cell afterwards; and every later write that
    changes the value of the cell at rest is fanned out to it, after the
    observers registered before it: on every schedule that brings the
    fan-out to rest, and the event loop, left alone, does bring it to
    rest. *)
Theorem onChange_registers_before_replay cb w :
  callbacks (snd (onChange cb w)) = callbacks w ++ [cb] /\
  deliveries (snd (onChange cb w)) =
    deliveries w ++ [delivery Replay (currentValue w) cb] /\
  (fst (onChange cb w) = Raised <-> cb_call cb (currentValue w) = Throws) /\
  (forall s, cb_call cb (currentValue w) = ReturnsSettled s ->
     fst (onChange cb w) = Done) /\
  (cb_call cb (currentValue w) = ReturnsPending ->
     fst (onChange cb w) = Done) /\
  (forall (es : list (Event T)) w1 v,
     exec step es (snd (onChange cb w)) = Some w1 ->
     exists after,
       callbacks w1 = callbacks w ++ cb :: after /\
       (idle w1 -> v <> currentValue w1 ->
        (forall (es' : list (Event T)) w',
           Forall (fun e => internal e = true) es' ->
           exec step es' (setValue v w1) = Some w' -> idle w' ->
           deliveries w' =
             deliveries w1 ++ fanned v (callbacks w) ++
             delivery FanOut v cb :: fanned v after) /\
        (let '(es', w') :=
           settle (2 * length (callbacks w1) + 3) (setValue v w1) in
         Forall (fun e => internal e = true) es' /\
         exec step es' (setValue v w1) = Some w' /\ idle w' /\
         deliveries w' =
           deliveries w1 ++ fanned v (callbacks w) ++
           delivery FanOut v cb :: fanned v after))).
Proof.
  assert (Hw : snd (onChange cb w) =
               call Replay cb (with_callbacks (callbacks w ++ [cb]) w)).
  { unfold onChange. simpl. by destruct (cb_call cb (currentValue w)). }
  split; [by rewrite Hw|]. split; [by rewrite Hw|].
  split; [|split; [|split]].
  - unfold onChange. simpl.
    destruct (cb_call cb (currentValue w)); simpl; split; congruence.
  - intros s Hs. unfold onChange. simpl. by rewrite Hs.
  - intros Hp. unfold onChange. simpl. by rewrite Hp.
  - intros es w1 v Hexec.
    destruct (exec_callbacks _ _ _ Hexec) as (after & Hcbs).
    exists after.
    assert (Hcbs1 : callbacks w1 = callbacks w ++ cb :: after).
    { rewrite Hcbs, Hw. simpl. by rewrite <- app_assoc. }
    split; [exact Hcbs1|]. intros Hidle1 Hne.
    assert (Hfan : fanned v (callbacks w1) =
                   fanned v (callbacks w) ++
                   delivery FanOut v cb :: fanned v after).
    { rewrite Hcbs1. unfold fanned. by rewrite map_app. }
    rewrite <- Hfan. by apply write_at_rest_is_fanned_out.
Qed.

(** C6, as the code has it: a write is compared with the value the cell
    holds, not with the value last delivered, and schedules a fan-out only
    when the two differ.  So when the writes to a cell come one to a
    scheduling quantum (each at rest, each followed to rest), no two
    consecutive fan-outs carry the same value: whatever the fan-out of the
    second write delivers differs from the value written first, which is
    all that the fan-out of the first write can have delivered. *)
Theorem single_writes_fan_out_distinct (v1 v2 : option T)
    (es1 es2 : list (Event T)) (w0 w1 w2 : World T) :
  idle w0 ->
  Forall (fun e => internal e = true) es1 ->
  exec step es1 (setValue v1 w0) = Some w1 -> idle w1 ->
  Forall (fun e => internal e = true) es2 ->
  exec step es2 (setValue v2 w1) = Some w2 -> idle w2 ->
  exists ds1 ds2,
    deliveries w1 = deliveries w0 ++ ds1 /\
    deliveries w2 = deliveries w1 ++ ds2 /\
    Forall (fun d => kind d = FanOut /\ carried d = v1) ds1 /\
    Forall (fun d => kind d = FanOut /\ carried d = v2 /\ carried d <> v1)
      ds2.
Proof.
  intros Hidle0 Hes1 Hexec1 Hidle1 Hes2 Hexec2 Hidle2.
  destruct (single_write _ _ _ _ Hidle0 Hes1 Hexec1 Hidle1)
    as (Hv1 & _ & ds1 & Hd1 & Hds1).
  destruct (single_write _ _ _ _ Hidle1 Hes2 Hexec2 Hidle2)
    as (_ & _ & ds2 & Hd2 & Hds2).
  exists ds1, ds2. split; [exact Hd1|]. split; [exact Hd2|]. split.
  - destruct Hds1 as [->|[_ ->]]; [constructor|].
    unfold fanned. apply Forall_map, Forall_true. by intros cb.
  - destruct Hds2 as [->|[Hne ->]]; [constructor|].
    unfold fanned. apply Forall_map, Forall_true. intros cb. simpl.
    repeat split. congruence.
Qed.

End Facts.

(** *** Concrete cells *)

Import Cells.

Local Abbreviation Status := InstanceStatusTracker.LocalStackInstanceStatus.
Local Abbreviation starting := InstanceStatusTracker.starting.
Local Abbreviation running := InstanceStatusTracker.running.

Ltac by_computation :=
  repeat lazymatch goal with
         | |- _ /\ _ => split
         | |- idle _ => unfold idle
         end;
  vm_compute; reflexivity.

Lemma observedCell_reached :
  exec step
    [OnChange plainObserver; OnChange throwingObserver;
     OnChange asyncObserver] createValueEmitter = Some observedCell.
Proof. reflexivity. Qed.

Lemma burst_delivers_final_value_once_witness :
  (forall (es : list (Event Status)) w',
     Forall (fun e => internal e = true) es ->
     exec step es (setValues [Some starting; Some running] observedCell)
       = Some w' ->
     (exists k,
        deliveries w' =
          deliveries observedCell ++
          fanned (Some running) (take k (callbacks observedCell))) /\
     (idle w' ->
      deliveries w' =
        deliveries observedCell ++
        fanned (Some running) (callbacks observedCell))) /\
  (let '(es, w') :=
     settle (2 * length (callbacks observedCell) + 3)
       (setValues [Some starting; Some running] observedCell) in
   Forall (fun e => internal e = true) es /\
   exec step es (setValues [Some starting; Some running] observedCell)
     = Some w' /\
   idle w' /\
   deliveries w' =
     deliveries observedCell ++
     fanned (Some running) (callbacks observedCell)).
Proof.
  apply (burst_delivers_final_value_once
           [Some starting; Some running] (Some running) observedCell).
  - left. split; [by_computation|]. apply Exists_cons_hd. discriminate.
  - reflexivity.
Defined.

(** C5, as stated, fails: a burst that writes nothing but the value the
    cell already holds schedules no fan-out.  The cell holds [running]
    (delivered once to its observer); [running] is written twice; the cell
    is unchanged, the runtime has nothing to run, and the observer got no
    callback for the burst. *)
Lemma burst_of_equal_writes_delivers_nothing :
  exists w,
    exec step
      [OnChange plainObserver; SetValue (Some running); RunImmediate;
       RunMicrotask; RunMicrotask] createValueEmitter = Some w /\
    idle w /\
    callbacks w = [plainObserver] /\
    deliveries w =
      [delivery Replay None plainObserver;
       delivery FanOut (Some running) plainObserver] /\
    setValues [Some running; Some running] w = w /\
    next (setValues [Some running; Some running] w) = None /\
    settle 5 (setValues [Some running; Some running] w) = ([], w).
Proof. eexists. split; [vm_compute; reflexivity|]. by_computation. Qed.

Lemma single_writes_fan_out_distinct_witness :
  exists ds1 ds2,
    deliveries startingCell = deliveries observedCell ++ ds1 /\
    deliveries runningCell = deliveries startingCell ++ ds2 /\
    Forall (fun d => kind d = FanOut /\ carried d = Some starting) ds1 /\
    Forall (fun d => kind d = FanOut /\ carried d = Some running /\
                     carried d <> Some starting) ds2.
Proof.
  apply (single_writes_fan_out_distinct (Some starting) (Some running)
           oneFanOut oneFanOut observedCell startingCell runningCell).
  - by_computation.
  - repeat constructor.
  - vm_compute; reflexivity.
  - by_computation.
  - repeat constructor.
  - vm_compute; reflexivity.
  - by_computation.
Defined.

(** C6, as stated, fails: the value is changed and changed back within one
    quantum.  [starting] is written and fanned out; then [running] and
    [starting] are written in one stretch: both differ from the value held
    when they are written, so a fan-out is scheduled, and it delivers
    [starting] again. *)
Lemma restored_value_fans_out_twice :
  exists w,
    exec step
      [OnChange plainObserver;
       SetValue (Some starting); RunImmediate; RunMicrotask; RunMicrotask;
       SetValue (Some running); SetValue (Some starting);
       RunImmediate; RunMicrotask; RunMicrotask]
      createValueEmitter = Some w /\
    idle w /\
    deliveries w =
      [delivery Replay None plainObserver;
       delivery FanOut (Some starting) plainObserver;
       delivery FanOut (Some starting) plainObserver].
Proof. eexists. split; [vm_compute; reflexivity|]. by_computation. Qed.

Lemma onChange_registers_before_replay_witness :
  fst (onChange throwingObserver observedCell) = Raised /\
  callbacks (snd (onChange throwingObserver observedCell)) =
    callbacks observedCell ++ [throwingObserver] /\
  (let '(es', w') :=
     settle
       (2 * length (callbacks (snd (onChange throwingObserver
                                      observedCell))) + 3)
       (setValue (Some running)
          (snd (onChange throwingObserver observedCell))) in
   Forall (fun e => internal e = true) es' /\
   exec step es'
     (setValue (Some running)
        (snd (onChange throwingObserver observedCell))) = Some w' /\
   idle w' /\
   deliveries w' =
     deliveries (snd (onChange throwingObserver observedCell)) ++
     fanned (Some running) (callbacks observedCell) ++
     delivery FanOut (Some running) throwingObserver ::
     fanned (Some running) []).
Proof.
  destruct (onChange_registers_before_replay throwingObserver observedCell)
    as (Hpush & _ & Hraised & _ & _ & Hnext).
  split; [by apply Hraised|]. split; [exact Hpush|].
  destruct (Hnext [] (snd (onChange throwingObserver observedCell))
              (Some running) eq_refl) as (after & Hcbs & Hfan).
  assert (Hafter : after = []).
  { rewrite Hpush in Hcbs. apply app_inv_head in Hcbs. congruence. }
  subst after. apply Hfan; [by_computation|discriminate].
Defined.

(** The fan-out of the witness above, run: the new observer is called
    fourth, after the three registered before it, with the value
    written. *)
Lemma late_observer_is_called :
  exists es w',
    settle 11
      (setValue (Some running)
         (snd (onChange throwingObserver observedCell))) = (es, w') /\
    idle w' /\
    deliveries w' =
      deliveries observedCell ++
      [delivery Replay None throwingObserver] ++
      fanned (Some running) (callbacks observedCell) ++
      [delivery FanOut (Some running) throwingObserver].
Proof.
  do 2 eexists. split; [vm_compute; reflexivity|]. by_computation.
Qed.

End ValueEmitterFacts.

(** ** The health poll loop *)

Module HealthStatusTrackerFacts.
Import HealthStatusTracker.

Lemma emit_currentValue {T : Type} (c : ValueEmitter.World T) :
  ValueEmitter.currentValue (ValueEmitter.emit c) =
  ValueEmitter.currentValue c.
Proof.
  unfold ValueEmitter.emit, OnceImmediate.createOnceImmediate. simpl.
  by destruct (ValueEmitter.timeout c).
Qed.

(** After [setValue(v)] the cell holds [v], changed or not. *)
Lemma value_setValue {T : Type} `{EqDecision T} (v : option T)
    (c : ValueEmitter.World T) :
  ValueEmitter.value (ValueEmitter.setValue v c) = v.
Proof.
  unfold ValueEmitter.value, ValueEmitter.setValue.
  destruct (decide (ValueEmitter.currentValue c <> v)) as [Hne|Heq].
  - by rewrite emit_currentValue.
  - by destruct (decide (ValueEmitter.currentValue c = v)).
Qed.

Lemma enqueueUpdateStatus_status (w : World) :
  status (enqueueUpdateStatus w) = status w.
Proof. unfold enqueueUpdateStatus. by destruct (healthCheckTimeout w). Qed.

Lemma clearTimeout_fields (h : option Timeout) (w : World) :
  status (clearTimeout h w) = status w /\
  enqueueAgain (clearTimeout h w) = enqueueAgain w /\
  next_timeout (clearTimeout h w) = next_timeout w /\
  probes (clearTimeout h w) = probes w /\
  (forall x, x ∈ timers (clearTimeout h w) -> x ∈ timers w).
Proof.
  destruct h as [h|]; simpl; repeat split; auto.
  intros x Hx. by apply list_elem_of_filter in Hx as [_ Hx].
Qed.

Lemma stop_fields (w : World) :
  status_of (stop w) = None /\ enqueueAgain (stop w) = false /\
  healthCheckTimeout (stop w) = None /\
  next_timeout (stop w) = next_timeout w /\ probes (stop w) = probes w /\
  (forall x, x ∈ timers (stop w) -> x ∈ timers w).
Proof.
  unfold stop, status_of. simpl.
  destruct (clearTimeout_fields (healthCheckTimeout w)
              (with_enqueueAgain false
                 (with_status (ValueEmitter.setValue None (status w)) w)))
    as (Hs & He & Hn & Hp & Ht).
  simpl in *. rewrite Hs, He, Hn, Hp.
  repeat split; auto. apply value_setValue.
Qed.

Section AnyTimeTracker.
Variable timeTracker : TimeTracker.

Lemma probeSettled_resolves (b : bool) (w : World) :
  status_of (probeSettled timeTracker (Resolves b) w)
    = Some (if b then healthy else unhealthy).
Proof.
  unfold probeSettled, status_of, updateStatus.
  destruct (run timeTracker Fulfils); simpl; apply value_setValue.
Qed.

Lemma probeSettled_rejects (w : World) :
  status (probeSettled timeTracker ProbeRejects w) = status w.
Proof. unfold probeSettled. by destruct (run timeTracker Rejects). Qed.

(** C3, as the code has it: [stop()] resets the health status to absent,
    but nothing is consulted before a probe publishes.  When [stop()] or
    [dispose()] is called with a probe in flight, the health status is
    absent right after [stop()], and once the probe resolves it is
    [healthy] or [unhealthy], as the probe said. *)
Theorem in_flight_probe_publishes_after_stop (b : bool) (w : World) :
  0 < probes w ->
  status_of (stop w) = None /\
  (exists w',
     step timeTracker (SettleProbe (Resolves b)) (stop w) = Some w' /\
     status_of w' = Some (if b then healthy else unhealthy)) /\
  (exists w',
     step timeTracker (SettleProbe (Resolves b)) (dispose w) = Some w' /\
     status_of w' = Some (if b then healthy else unhealthy)).
Proof.
  intros Hprobe.
  destruct (stop_fields w) as (Hnone & _ & _ & _ & Hp & _).
  split; [exact Hnone|]. split.
  - unfold step. rewrite Hp. destruct (probes w) as [|n]; [lia|].
    eexists. split; [reflexivity|]. apply probeSettled_resolves.
  - unfold step, dispose.
    destruct (clearTimeout_fields (healthCheckTimeout w) w)
      as (_ & _ & _ & -> & _).
    destruct (probes w) as [|n]; [lia|].
    eexists. split; [reflexivity|]. apply probeSettled_resolves.
Qed.


Lemma stopped_loop_step (n : Timeout) (armed : list Timeout) (e : Event)
    (w w' : World) :
  stopped_loop n armed w -> e <> Start ->
  step timeTracker e w = Some w' -> stopped_loop n armed w'.
Proof.
  intros (Hflag & Hnext & Harmed) Hne. unfold stopped_loop.
  destruct e; simpl; try contradiction.
  - (* stop *)
    intros [= <-]. destruct (stop_fields w) as (_ & He & _ & Hn & _ & Ht).
    rewrite He, Hn. auto.
  - (* dispose *)
    intros [= <-]. unfold dispose.
    destruct (clearTimeout_fields (healthCheckTimeout w) w)
      as (_ & He & Hn & _ & Ht).
    rewrite He, Hn. auto.
  - (* a subscription *)
    intros [= <-]. unfold onChange.
    destruct (ValueEmitter.onChange cb (status w)). simpl. auto.
  - (* a timer fires *)
    destruct (decide (h ∈ timers w)); [|discriminate].
    intros [= <-]. simpl. repeat split; auto.
    intros x Hx. apply list_elem_of_filter in Hx as [_ Hx]. auto.
  - (* a probe settles *)
    destruct (probes w) as [|k]; [discriminate|]. intros [= <-].
    unfold probeSettled.
    destruct r as [b|]; destruct (run timeTracker _); simpl; auto.
  - (* the then handler: the flag is down *)
    destruct (reactions w) as [|k]; [discriminate|]. intros [= <-].
    unfold thenArrow. simpl. rewrite Hflag. simpl. auto.
  - (* the cell goes on *)
    destruct (ValueEmitter.internal e); [|discriminate].
    destruct (ValueEmitter.step e (status w)); [|discriminate].
    intros [= <-]. simpl. auto.
Qed.

Lemma stopped_loop_exec (n : Timeout) (armed : list Timeout)
    (es : list Event) (w w' : World) :
  stopped_loop n armed w -> Forall (fun e => e <> Start) es ->
  exec (step timeTracker) es w = Some w' -> stopped_loop n armed w'.
Proof.
  revert w. induction es as [|e es IH]; simpl; intros w Hinv Hes.
  - intros [= <-]. exact Hinv.
  - inversion_clear Hes as [|? ? He Hes'].
    destruct (step timeTracker e w) as [w1|] eqn:Hstep; [|discriminate].
    apply IH; [|exact Hes']. eapply stopped_loop_step; eauto.
Qed.

(** C8: when [stop()] is called with a probe in flight and [start()] is
    not called again, no timer is armed afterwards, whatever happens: the
    probe settling, its [then] handler, other timers firing, [stop()] or
    [dispose()] again.  [setTimeout] is never called (the next handle it
    would return is still the same), the flag stays down, and every timer
    still armed was armed before [stop()]. *)
Theorem stop_in_flight_arms_no_timer (es : list Event) (w w' : World) :
  0 < probes w ->
  Forall (fun e => e <> Start) es ->
  exec (step timeTracker) es (stop w) = Some w' ->
  next_timeout w' = next_timeout w /\ enqueueAgain w' = false /\
  (forall h, h ∈ timers w' -> h ∈ timers w).
Proof.
  intros _ Hes Hexec.
  destruct (stop_fields w) as (_ & He & _ & Hn & _ & Ht).
  destruct (stopped_loop_exec (next_timeout w) (timers w) es (stop w) w')
    as (He' & Hn' & Ht'); auto.
  by repeat split.
Qed.

End AnyTimeTracker.

(** *** A concrete poll loop *)

Lemma probing_reached :
  exec (step plainTimeTracker) [Start; FireTimeout 0]
    createHealthStatusTracker = Some probing.
Proof. vm_compute. reflexivity. Qed.

Lemma in_flight_probe_publishes_after_stop_witness :
  status_of (stop probing) = None /\
  (exists w',
     step plainTimeTracker (SettleProbe (Resolves true)) (stop probing)
       = Some w' /\
     status_of w' = Some healthy) /\
  (exists w',
     step plainTimeTracker (SettleProbe (Resolves true)) (dispose probing)
       = Some w' /\
     status_of w' = Some healthy).
Proof.
  apply (in_flight_probe_publishes_after_stop plainTimeTracker true probing).
  vm_compute. lia.
Defined.

(** C3, as stated, fails: [stop()] is called while the first probe is in
    flight; the health status is absent; the probe resolves to [true], and
    the health status is [healthy].  The same after [dispose()], which
    leaves the flag up: the [then] handler arms the next timer. *)
Lemma probe_in_flight_overwrites_stop :
  exists w1 w2 w3 w4,
    exec (step plainTimeTracker) [Start; FireTimeout 0; Stop]
      createHealthStatusTracker = Some w1 /\
    status_of w1 = None /\ probes w1 = 1 /\
    step plainTimeTracker (SettleProbe (Resolves true)) w1 = Some w2 /\
    status_of w2 = Some healthy /\
    exec (step plainTimeTracker)
      [Start; FireTimeout 0; Dispose; SettleProbe (Resolves true)]
      createHealthStatusTracker = Some w3 /\
    status_of w3 = Some healthy /\
    step plainTimeTracker RunThen w3 = Some w4 /\ timers w4 = [1].
Proof.
  do 4 eexists.
  split; [vm_compute; reflexivity|]. split; [vm_compute; reflexivity|].
  split; [vm_compute; reflexivity|]. split; [vm_compute; reflexivity|].
  split; [vm_compute; reflexivity|]. split; [vm_compute; reflexivity|].
  split; [vm_compute; reflexivity|]. split; vm_compute; reflexivity.
Qed.


Lemma stop_in_flight_arms_no_timer_witness :
  exists w',
    exec (step plainTimeTracker) [SettleProbe (Resolves true); RunThen]
      (stop probing) = Some w' /\
    next_timeout w' = next_timeout probing /\ enqueueAgain w' = false /\
    (forall h, h ∈ timers w' -> h ∈ timers probing).
Proof.
  eexists. split; [vm_compute; reflexivity|].
  apply (stop_in_flight_arms_no_timer plainTimeTracker
           [SettleProbe (Resolves true); RunThen] probing).
  - vm_compute. lia.
  - repeat constructor; discriminate.
  - vm_compute. reflexivity.
Defined.

End HealthStatusTrackerFacts.

(** ** The instance status tracker *)

Module InstanceStatusTrackerFacts.
Import InstanceStatusTracker.

Local Abbreviation healthy := HealthStatusTracker.healthy.
Local Abbreviation unhealthy := HealthStatusTracker.unhealthy.

(** C1: [getLocalStackStatus] is a total function and agrees with the
    table of the specification on every combination of container status,
    health status and previous instance status; row by row: no container
    status gives nothing; running and healthy gives [running]; running and
    unhealthy gives [stopping] after [running] or [stopping] and
    [starting] otherwise; running with no health status gives nothing (no
    change); stopping gives [stopping]; stopped gives [stopped]. *)
Theorem getLocalStackStatus_table :
  (forall c h p, getLocalStackStatus c h p = derive_table c h p) /\
  (forall h p, getLocalStackStatus None h p = None) /\
  (forall p, getLocalStackStatus (Some c_running) (Some healthy) p
             = Some running) /\
  getLocalStackStatus (Some c_running) (Some unhealthy) (Some running)
    = Some stopping /\
  getLocalStackStatus (Some c_running) (Some unhealthy) (Some stopping)
    = Some stopping /\
  getLocalStackStatus (Some c_running) (Some unhealthy) None
    = Some starting /\
  getLocalStackStatus (Some c_running) (Some unhealthy) (Some starting)
    = Some starting /\
  getLocalStackStatus (Some c_running) (Some unhealthy) (Some stopped)
    = Some starting /\
  (forall p, getLocalStackStatus (Some c_running) None p = None) /\
  (forall h p, getLocalStackStatus (Some c_stopping) h p = Some stopping) /\
  (forall h p, getLocalStackStatus (Some c_stopped) h p = Some stopped).
Proof.
  repeat split;
    try (intros [[]|] [[]|] [[]|]); try (intros [[]|] [[]|]);
    try (intros [[]|]); reflexivity.
Qed.

(** C9: [forceContainerStatus("stopped")] stores the container status and
    does nothing else: the instance status cell (its value, its observers,
    its scheduler, what was delivered) and the health tracker are what they
    were, so [status()] returns what it returned before and no observer is
    called or scheduled to be called. *)
Theorem forceContainerStatus_stopped_frame (w : World) :
  containerStatus (forceContainerStatus c_stopped w) = Some c_stopped /\
  status (forceContainerStatus c_stopped w) = status w /\
  status_of (forceContainerStatus c_stopped w) = status_of w /\
  ValueEmitter.deliveries (status (forceContainerStatus c_stopped w))
    = ValueEmitter.deliveries (status w) /\
  ValueEmitter.timeout (status (forceContainerStatus c_stopped w))
    = ValueEmitter.timeout (status w) /\
  healthCheckStatusTracker (forceContainerStatus c_stopped w)
    = healthCheckStatusTracker w.
Proof. repeat split. Qed.

(** The other two container statuses do write the cell. *)
Lemma forceContainerStatus_projects (w : World) :
  status_of (forceContainerStatus c_running w) = Some starting /\
  status_of (forceContainerStatus c_stopping w) = Some stopping.
Proof.
  split; unfold status_of, forceContainerStatus; simpl;
    apply HealthStatusTrackerFacts.value_setValue.
Qed.

End InstanceStatusTrackerFacts.

(** ** More on the coalescing scheduler *)

Module SchedulerTracesFacts.
Import OnceImmediate SchedulerTraces.

Section AnyWork.
Variable unitOfWork : nat -> Work.

Lemma triggers_cons (e : Event) (es : list Event) :
  triggers (e :: es) =
  (match e with Trigger => 1 | _ => 0 end) + triggers es.
Proof. by destruct e. Qed.

(** One step: what has run or is queued to run grows by the outside
    trigger only. *)
Lemma step_runs (e : Event) (w w' : World) :
  one_run w -> step unitOfWork e w = Some w' ->
  runs w' + length (immediates w') <=
  runs w + length (immediates w) + match e with Trigger => 1 | _ => 0 end.
Proof.
  destruct w as [t imm mic pen rn unc unh].
  unfold one_run, in_flight. destruct e; simpl.
  - intros _ [= <-]. unfold trigger, createOnceImmediate. simpl.
    destruct t; simpl; rewrite ?length_app; simpl; lia.
  - destruct imm as [|[] q]; [discriminate|]. simpl.
    intros Hinv [= <-].
    destruct t as [i|]; simpl in Hinv; [|lia].
    unfold immediateArrow, callback. simpl.
    rewrite (OnceImmediateFacts.trigger_iter_set _ _ i) by reflexivity.
    destruct (completes _); simpl; lia.
  - destruct pen as [|n]; [discriminate|]. intros _ [= <-]. simpl. lia.
  - destruct mic as [|[s] q]; [discriminate|]. intros _ [= <-].
    destruct s; simpl; lia.
Qed.

Lemma exec_runs (es : list Event) (w w' : World) :
  one_run w -> exec (step unitOfWork) es w = Some w' ->
  runs w' + length (immediates w') <=
  runs w + length (immediates w) + triggers es.
Proof.
  revert w. induction es as [|e es IH]; cbn [exec]; intros w Hinv.
  - intros [= <-]. simpl. lia.
  - destruct (step unitOfWork e w) as [w1|] eqn:Hstep; [|discriminate].
    intros Hexec. rewrite triggers_cons.
    pose proof (step_runs _ _ _ Hinv Hstep).
    pose proof (OnceImmediateFacts.step_one_run _ _ _ _ Hinv Hstep) as Hinv1.
    specialize (IH _ Hinv1 Hexec). lia.
Qed.

(** X1: In every execution of a scheduler, whatever the unit of work does: at
    most one run is pending or executing at any time, none while the flag
    is clear, and the unit of work has run at most as often as the
    returned function was called from outside. *)
Theorem one_run_at_a_time (es : list Event) (w : World) :
  exec (step unitOfWork) es init = Some w ->
  in_flight w <= 1 /\
  (timeout_var w = None -> in_flight w = 0) /\
  runs w + length (immediates w) <= triggers es.
Proof.
  intros Hexec.
  pose proof (OnceImmediateFacts.reachable_one_run _ _ _ Hexec) as Hinv.
  pose proof (exec_runs es init w ltac:(reflexivity) Hexec) as Hruns.
  simpl in Hruns. unfold one_run in Hinv.
  destruct (timeout_var w); repeat split; try lia; discriminate.
Qed.

(** X2: In every execution, when the promise the unit of work returned is
    still pending: however it settles, the [finally] handler clears the
    flag and the next call schedules a run; a rejection is passed on to a
    promise nobody handles. *)
Theorem rejection_does_not_wedge (es : list Event) (s : Settle)
    (w : World) :
  exec (step unitOfWork) es init = Some w ->
  0 < pending w ->
  exists w1 w2,
    exec (step unitOfWork) [SettleWork s; RunMicrotask] w = Some w1 /\
    timeout_var w1 = None /\ in_flight w1 = 0 /\
    unhandled w1 =
      unhandled w + match s with Rejects => 1 | Fulfils => 0 end /\
    step unitOfWork Trigger w1 = Some w2 /\
    immediates w2 = [ImmediateArrow].
Proof.
  intros Hexec Hpending.
  pose proof (OnceImmediateFacts.reachable_one_run _ _ _ Hexec) as Hinv.
  destruct w as [t imm mic pen rn unc unh].
  unfold one_run, in_flight in *. simpl in *.
  destruct pen as [|n]; [lia|].
  destruct t as [[]|]; [|lia].
  assert (imm = []) as -> by (destruct imm; [done|simpl in *; lia]).
  assert (mic = []) as -> by (destruct mic; [done|simpl in *; lia]).
  assert (n = 0) as -> by (simpl in *; lia).
  destruct s; do 2 eexists; repeat split; simpl; lia.
Qed.

End AnyWork.

Lemma one_run_at_a_time_witness :
  exists w,
    exec (step OnceImmediate.reentrantWork)
      [Trigger; Trigger; RunImmediate; Trigger] init = Some w /\
    in_flight w <= 1 /\
    (timeout_var w = None -> in_flight w = 0) /\
    runs w + length (immediates w) <= 3.
Proof.
  eexists. split; [vm_compute; reflexivity|].
  apply (one_run_at_a_time OnceImmediate.reentrantWork
           [Trigger; Trigger; RunImmediate; Trigger]).
  vm_compute. reflexivity.
Defined.

Lemma rejection_does_not_wedge_witness :
  exists w w1 w2,
    exec (step asyncWork) [Trigger; RunImmediate] init = Some w /\
    exec (step asyncWork) [SettleWork Rejects; RunMicrotask] w = Some w1 /\
    timeout_var w1 = None /\ in_flight w1 = 0 /\
    unhandled w1 = unhandled w + 1 /\
    step asyncWork Trigger w1 = Some w2 /\
    immediates w2 = [ImmediateArrow].
Proof.
  eexists.
  destruct (rejection_does_not_wedge asyncWork [Trigger; RunImmediate]
              Rejects
              (with_pending 1 (with_runs 1
                 (with_timeout (Some ImmediateHandle) init))))
    as (w1 & w2 & H).
  - vm_compute. reflexivity.
  - vm_compute. lia.
  - exists w1, w2. split; [vm_compute; reflexivity|]. exact H.
Defined.

End SchedulerTracesFacts.

(** ** More on the value cell *)

Module FanOutProgressFacts.
Import ValueEmitter FanOutProgress.

Section Facts.
Context {T : Type} `{EqDecision T}.
Implicit Types (w : World T) (cb : Callback T) (v : option T).
Implicit Types (cbs : list (Callback T)) (E : list (Delivery T)).

Lemma forOf_rest E v cbs (i : nat) dl (finished : bool) w' :
  i <= length cbs -> dl ++ fanned v (drop i cbs) = E ->
  forOf (drop i cbs) i (mk v cbs (Some ImmediateHandle) [] [] None dl)
    = (finished, w') ->
  if finished
  then w' = mk v cbs (Some ImmediateHandle) [] [] None E
  else exists m, m < 2 * (length cbs - i) + 2 /\ rest_phase E v cbs m w'.
Proof.
  intros Hi HE Hrun.
  destruct (ValueEmitterFacts.forOf_spec (drop i cbs) i
              (mk v cbs (Some ImmediateHandle) [] [] None dl))
    as [Hend|(k & [Hk0 Hk] & Hsusp)].
  - rewrite Hend in Hrun. injection Hrun as <- <-.
    unfold with_deliveries, mk. simpl. by rewrite HE.
  - rewrite length_drop in Hk.
    assert (Hlog : (dl ++ fanned v (take k (drop i cbs))) ++
                   fanned v (drop (i + k) cbs) = E).
    { rewrite <- HE, <- app_assoc. f_equal. unfold fanned.
      rewrite <- map_app. f_equal.
      by rewrite <- drop_drop, take_drop. }
    simpl in Hsusp. destruct Hsusp as [Hsusp|Hsusp];
      rewrite Hsusp in Hrun; injection Hrun as <- <-;
      unfold with_microtasks, with_awaiting, with_deliveries, mk; simpl.
    + eexists. split; [|apply (rp_resuming E v cbs (i + k)); [lia|exact Hlog]].
      lia.
    + eexists. split; [|apply (rp_awaiting E v cbs (i + k)); [lia|exact Hlog]].
      lia.
Qed.

Lemma rest_phase_step E v cbs (m : nat) (e : Event T) w w' :
  rest_phase E v cbs m w -> internal e = true -> step e w = Some w' ->
  exists m', m' < m /\ rest_phase E v cbs m' w'.
Proof.
  intros Hph Hint Hstep.
  destruct Hph as [i dl Hi Hdl|i dl Hi Hdl|s|];
    destruct e; try discriminate; simpl in Hstep; try discriminate.
  - injection Hstep as <-. unfold resume. simpl.
    destruct (forOf (drop i cbs) i _) as [finished w1] eqn:Hrun.
    pose proof (forOf_rest E v cbs i dl finished w1 Hi Hdl Hrun) as Hnext.
    destruct finished.
    + subst w1. exists 1. split; [lia|]. apply (rp_finishing E v cbs Fulfils).
    + exact Hnext.
  - injection Hstep as <-. eexists.
    split; [|apply (rp_resuming E v cbs i); eauto]. lia.
  - injection Hstep as <-. exists 0. split; [lia|]. apply rp_idle.
Qed.

Lemma rest_phase_exec E v cbs (m : nat) (es : list (Event T)) w w' :
  rest_phase E v cbs m w -> Forall (fun e => internal e = true) es ->
  exec step es w = Some w' -> idle w' ->
  w' = mk v cbs None [] [] None E.
Proof.
  revert m w. induction es as [|e es IH]; simpl; intros m w Hph Hint.
  - intros [= <-] (Ht & _). destruct Hph; try discriminate. reflexivity.
  - destruct (step e w) as [w1|] eqn:Hstep; [|discriminate].
    inversion_clear Hint as [|? ? He Hes].
    destruct (rest_phase_step _ _ _ _ _ _ _ Hph He Hstep) as (m1 & _ & Hph1).
    eauto.
Qed.

(** X3: A write that lands while a fan-out is suspended on the promise of an
    observer is not fanned out again.  The observers called before keep
    the old value; the ones still to visit get the new one; and when the
    fan-out has come to rest nothing is scheduled, though the cell holds
    the new value. *)
Theorem write_during_fan_out_is_not_fanned_again v (v' : option T) cbs
    (i : nat) (dl : list (Delivery T)) (es : list (Event T)) w' :
  i <= length cbs ->
  Forall (fun e => internal e = true) es ->
  exec step es
    (setValue v' (mk v cbs (Some ImmediateHandle) [] [] (Some i) dl))
    = Some w' ->
  idle w' ->
  w' = mk v' cbs None [] [] None (dl ++ fanned v' (drop i cbs)).
Proof.
  intros Hi Hes Hexec Hidle.
  assert (Hset : setValue v' (mk v cbs (Some ImmediateHandle) [] [] (Some i) dl)
                 = mk v' cbs (Some ImmediateHandle) [] [] (Some i) dl).
  { unfold setValue. simpl.
    destruct (decide (v <> v')) as [_|Heq]; [reflexivity|].
    destruct (decide (v = v')) as [->|]; [reflexivity|contradiction]. }
  rewrite Hset in Hexec.
  eapply rest_phase_exec; [|exact Hes|exact Hexec|exact Hidle].
  by apply rp_awaiting.
Qed.

(** X4: An observer that subscribes while a fan-out is suspended is replayed
    the current value at once and is then called by that very fan-out as
    well, after the observers registered before it. *)
Theorem subscriber_during_fan_out_is_called_twice v cbs cb (i : nat)
    (dl : list (Delivery T)) (es : list (Event T)) w' :
  i <= length cbs ->
  Forall (fun e => internal e = true) es ->
  exec step es
    (snd (onChange cb (mk v cbs (Some ImmediateHandle) [] [] (Some i) dl)))
    = Some w' ->
  idle w' ->
  deliveries w' =
    dl ++ [delivery Replay v cb] ++ fanned v (drop i cbs) ++
    [delivery FanOut v cb].
Proof.
  intros Hi Hes Hexec Hidle.
  assert (Hsub : snd (onChange cb
                        (mk v cbs (Some ImmediateHandle) [] [] (Some i) dl))
                 = mk v (cbs ++ [cb]) (Some ImmediateHandle) [] [] (Some i)
                     (dl ++ [delivery Replay v cb])).
  { unfold onChange. simpl. by destruct (cb_call cb v). }
  rewrite Hsub in Hexec.
  assert (Hph : rest_phase
                  ((dl ++ [delivery Replay v cb]) ++
                   fanned v (drop i (cbs ++ [cb])))
                  v (cbs ++ [cb]) (2 * (length (cbs ++ [cb]) - i) + 3)
                  (mk v (cbs ++ [cb]) (Some ImmediateHandle) [] [] (Some i)
                     (dl ++ [delivery Replay v cb]))).
  { apply rp_awaiting; [rewrite length_app; lia|reflexivity]. }
  rewrite (rest_phase_exec _ _ _ _ _ _ _ Hph Hes Hexec Hidle). simpl.
  rewrite drop_app_le by exact Hi.
  unfold fanned. rewrite map_app, <- !app_assoc. reflexivity.
Qed.

Lemma forOf_currentValue (rest : list (Callback T)) (i : nat) w :
  currentValue (snd (forOf rest i w)) = currentValue w.
Proof.
  destruct (ValueEmitterFacts.forOf_spec rest i w)
    as [->|(k & _ & [->| ->])]; reflexivity.
Qed.

Lemma step_currentValue (e : Event T) w w' :
  step e w = Some w' ->
  currentValue w' =
    match e with SetValue v => v | _ => currentValue w end.
Proof.
  destruct e; simpl.
  - intros [= <-]. apply HealthStatusTrackerFacts.value_setValue.
  - intros [= <-]. unfold onChange. simpl.
    by destruct (cb_call cb (currentValue w)).
  - destruct (immediates w) as [|[] q]; [discriminate|]. intros [= <-].
    unfold OnceImmediate.immediateArrow, unitOfWork.
    pose proof (forOf_currentValue (callbacks (with_immediates q w)) 0
                  (with_immediates q w)) as Hv.
    destruct (forOf _ 0 _) as [[] w1]; simpl in *; exact Hv.
  - destruct (microtasks w) as [|[j|s] q]; [discriminate|..];
      intros [= <-]; [|reflexivity].
    unfold resume.
    pose proof (forOf_currentValue
                  (drop j (callbacks (with_microtasks q w))) j
                  (with_microtasks q w)) as Hv.
    destruct (forOf _ j _) as [[] w1]; simpl in *; exact Hv.
  - destruct (awaiting w); [|discriminate]. by intros [= <-].
Qed.

(** X5: In every execution, whatever the scheduler and the observers are
    doing, [value()] returns the value written last, or what the cell
    held at the start when nothing was written. *)
Theorem value_is_last_write (es : list (Event T)) w w' :
  exec step es w = Some w' ->
  value w' = default (value w) (last (writes es)).
Proof.
  unfold value. revert w.
  induction es as [|e es IH]; cbn [exec]; intros w.
  - by intros [= <-].
  - destruct (step e w) as [w1|] eqn:Hstep; [|discriminate].
    intros Hexec. rewrite (IH _ Hexec).
    apply step_currentValue in Hstep. rewrite Hstep.
    destruct e; try reflexivity. simpl.
    destruct (writes es) as [|x l] eqn:Hw; [reflexivity|].
    rewrite last_cons_cons.
    destruct (last (x :: l)) eqn:Hlast; [reflexivity|].
    apply last_None in Hlast. discriminate.
Qed.

End Facts.

Local Abbreviation starting := InstanceStatusTracker.starting.
Local Abbreviation running := InstanceStatusTracker.running.

(** [suspendedCell] is what two subscriptions, a write of [starting] and
    the immediate lead to. *)
Lemma suspendedCell_reached :
  exec step
    [OnChange Cells.asyncObserver; OnChange Cells.plainObserver;
     SetValue (Some starting); RunImmediate]
    createValueEmitter = Some suspendedCell.
Proof. vm_compute. reflexivity. Qed.

Lemma write_during_fan_out_is_not_fanned_again_witness :
  exists w',
    exec step [SettleCallback Fulfils; RunMicrotask; RunMicrotask; RunMicrotask]
      (setValue (Some running) suspendedCell) = Some w' /\
    idle w' /\
    w' = mk (Some running) [Cells.asyncObserver; Cells.plainObserver]
           None [] [] None
           (deliveries suspendedCell ++
            fanned (Some running) [Cells.plainObserver]).
Proof.
  eexists. split; [vm_compute; reflexivity|].
  split; [ValueEmitterFacts.by_computation|].
  apply (write_during_fan_out_is_not_fanned_again (Some starting)
           (Some running) [Cells.asyncObserver; Cells.plainObserver] 1
           (deliveries suspendedCell)
           [SettleCallback Fulfils; RunMicrotask; RunMicrotask; RunMicrotask]).
  - simpl. lia.
  - repeat constructor.
  - vm_compute. reflexivity.
  - ValueEmitterFacts.by_computation.
Defined.

Lemma subscriber_during_fan_out_is_called_twice_witness :
  exists w',
    exec step [SettleCallback Fulfils; RunMicrotask; RunMicrotask; RunMicrotask]
      (snd (onChange Cells.throwingObserver suspendedCell)) = Some w' /\
    idle w' /\
    deliveries w' =
      deliveries suspendedCell ++
      [delivery Replay (Some starting) Cells.throwingObserver] ++
      fanned (Some starting) [Cells.plainObserver] ++
      [delivery FanOut (Some starting) Cells.throwingObserver].
Proof.
  eexists. split; [vm_compute; reflexivity|].
  split; [ValueEmitterFacts.by_computation|].
  apply (subscriber_during_fan_out_is_called_twice (Some starting)
           [Cells.asyncObserver; Cells.plainObserver]
           Cells.throwingObserver 1 (deliveries suspendedCell)
           [SettleCallback Fulfils; RunMicrotask; RunMicrotask; RunMicrotask]).
  - simpl. lia.
  - repeat constructor.
  - vm_compute. reflexivity.
  - ValueEmitterFacts.by_computation.
Defined.

Lemma value_is_last_write_witness :
  exists w',
    exec step
      [SetValue (Some starting); RunImmediate; SetValue None;
       OnChange Cells.plainObserver; SetValue (Some running);
       RunMicrotask]
      createValueEmitter = Some w' /\
    value w' = Some running.
Proof.
  eexists. split; [vm_compute; reflexivity|].
  apply (value_is_last_write
           [SetValue (Some starting); RunImmediate; SetValue None;
            OnChange Cells.plainObserver; SetValue (Some running);
            RunMicrotask] createValueEmitter).
  vm_compute. reflexivity.
Defined.

End FanOutProgressFacts.

(** ** More on the health poll loop *)

Module PollLoopTracesFacts.
Import HealthStatusTracker PollLoopTraces.

(** X6: [start()], [stop()] and [dispose()] can each be repeated without
    effect: a second [start()] arms no second timer, a second [stop()] or
    [dispose()] changes nothing. *)
Theorem lifecycle_calls_are_idempotent (w : World) :
  start (start w) = start w /\
  stop (stop w) = stop w /\
  dispose (dispose w) = dispose w.
Proof.
  split; [|split].
  - destruct w as [c [h|] e t n p r u]; reflexivity.
  - pose proof (ValueEmitterFacts.setValue_same None
                  (ValueEmitter.setValue None (status w))
                  (HealthStatusTrackerFacts.value_setValue None (status w)))
      as Hs.
    destruct w as [c [h|] e t n p r u]; unfold stop;
      cbn -[ValueEmitter.setValue] in *; by rewrite Hs.
  - unfold dispose.
    destruct w as [c [h|] e t n p r u]; simpl; [|reflexivity].
    unfold with_timers. simpl. f_equal.
    induction t as [|x t IH]; [reflexivity|].
    rewrite !filter_cons.
    destruct (decide (x <> h)) as [Hne|Heq]; [|exact IH].
    rewrite filter_cons. destruct (decide (x <> h)); [|contradiction].
    by rewrite IH.
Qed.

Lemma single_timer (h : Timeout) (l : list Timeout) :
  h ∈ l -> length l <= 1 -> l = [h].
Proof.
  destruct l as [|x [|y l]]; simpl; intros Hin Hlen; try lia.
  - by apply elem_of_nil in Hin.
  - apply list_elem_of_singleton in Hin. by subst.
Qed.

Lemma tracked_timers_cleared (h : Timeout) (l : list Timeout) :
  (forall x, x ∈ l -> Some h = Some x) ->
  filter (fun h' => h' <> h) l = [].
Proof.
  intros Hall. induction l as [|x l IH]; [reflexivity|].
  rewrite filter_cons.
  destruct (decide (x <> h)) as [Hne|_].
  - destruct Hne. specialize (Hall x ltac:(left)). congruence.
  - apply IH. intros y Hy. apply Hall. by right.
Qed.

Section AnyTimeTracker.
Variable timeTracker : TimeTracker.

Lemma tidy_step (e : Event) (w w' : World) :
  tidy w ->
  match e with Stop => probes w = 0 /\ reactions w = 0 | _ => True end ->
  step timeTracker e w = Some w' -> tidy w'.
Proof.
  destruct w as [c hct ea t n p rc u]. unfold tidy, going. simpl.
  intros (Hone & Htracked & Hnone) Hcalm.
  destruct e; simpl.
  - (* start *)
    intros [= <-]. unfold start, enqueueUpdateStatus. simpl.
    destruct hct as [h|]; simpl; [auto|].
    specialize (Hnone eq_refl).
    destruct t; [|simpl in Hnone; lia]. simpl.
    repeat split; try lia; try discriminate.
    intros h Hh. apply list_elem_of_singleton in Hh. by subst.
  - (* stop *)
    intros [= <-]. destruct Hcalm as [-> ->]. unfold stop. simpl.
    destruct hct as [h|]; simpl.
    + rewrite tracked_timers_cleared by exact Htracked.
      simpl. repeat split; try lia. intros x Hx. by apply elem_of_nil in Hx.
    + specialize (Hnone eq_refl).
      destruct t; [|simpl in Hnone; lia]. simpl.
      repeat split; try lia. intros x Hx. by apply elem_of_nil in Hx.
  - (* dispose *)
    intros [= <-]. unfold dispose. simpl.
    destruct hct as [h|]; simpl; [|auto].
    rewrite tracked_timers_cleared by exact Htracked.
    simpl. repeat split; try lia; try discriminate.
    intros x Hx. by apply elem_of_nil in Hx.
  - (* a subscription *)
    intros [= <-]. unfold onChange. simpl.
    destruct (ValueEmitter.onChange cb c). simpl. auto.
  - (* a timer fires *)
    destruct (decide (h ∈ t)) as [Hin|]; [|discriminate].
    intros [= <-]. simpl.
    pose proof (single_timer h t Hin ltac:(lia)) as ->.
    rewrite filter_cons. destruct (decide (h <> h)); [contradiction|].
    simpl in *. repeat split; try lia.
    + intros x Hx. by apply elem_of_nil in Hx.
    + intros ->. specialize (Hnone eq_refl). lia.
  - (* a probe settles *)
    destruct p as [|k]; [discriminate|]. intros [= <-].
    unfold probeSettled.
    destruct r as [b|]; destruct (run timeTracker _); simpl;
      (repeat split; [lia|exact Htracked|]);
      intros ->; specialize (Hnone eq_refl); lia.
  - (* the then handler *)
    destruct rc as [|k]; [discriminate|]. intros [= <-].
    unfold thenArrow, enqueueUpdateStatus. simpl.
    destruct ea; simpl.
    + destruct t; [|simpl in Hone; lia]. simpl.
      repeat split; try lia; try discriminate.
      intros h Hh. apply list_elem_of_singleton in Hh. by subst.
    + repeat split; [lia|exact Htracked|].
      intros ->. specialize (Hnone eq_refl). lia.
  - (* the cell goes on *)
    destruct (ValueEmitter.internal e); [|discriminate].
    destruct (ValueEmitter.step e c); [|discriminate].
    intros [= <-]. simpl. auto.
Qed.

Lemma tidy_exec (es : list Event) (w w' : World) :
  tidy w -> calm timeTracker es w ->
  exec (step timeTracker) es w = Some w' -> tidy w'.
Proof.
  revert w. induction es as [|e es IH]; simpl; intros w Hinv Hcalm.
  - intros [= <-]. exact Hinv.
  - destruct Hcalm as [Hnow Hlater].
    destruct (step timeTracker e w) as [w1|] eqn:Hstep; [|discriminate].
    apply IH; [|exact Hlater]. eapply tidy_step; eauto.
Qed.

Lemma tidy_created : tidy createHealthStatusTracker.
Proof.
  unfold tidy, going. simpl. split; [lia|]. split; [|intros _; lia].
  intros h Hh. by apply elem_of_nil in Hh.
Qed.

(** X7: Probes never overlap.  In every execution of a new tracker in which
    [stop()] is not called while a probe is in flight or its [then]
    handler is still to run, at most one of these is going at any time: an
    armed timer, a probe in flight, a [then] handler ready to run.  The
    next probe is issued by a timer that is armed only after the result of
    the last one was handled. *)
Theorem probes_never_overlap (es : list Event) (w : World) :
  calm timeTracker es createHealthStatusTracker ->
  exec (step timeTracker) es createHealthStatusTracker = Some w ->
  probes w <= 1 /\ length (timers w) + probes w + reactions w <= 1 /\
  (forall h, h ∈ timers w -> healthCheckTimeout w = Some h).
Proof.
  intros Hcalm Hexec.
  destruct (tidy_exec es _ w tidy_created Hcalm Hexec) as (Hone & Ht & _).
  unfold going in Hone. repeat split; [lia|lia|exact Ht].
Qed.

Lemma silent_step (e : Event) (w w' : World) :
  silent w -> e <> Start -> step timeTracker e w = Some w' -> silent w'.
Proof.
  unfold silent, going. intros (Hflag & Hgo & Hnone) Hne.
  assert (Ht : timers w = []) by (destruct (timers w); [done|simpl in *; lia]).
  assert (Hp : probes w = 0) by lia.
  assert (Hr : reactions w = 0) by lia.
  destruct e; simpl; try contradiction.
  - intros [= <-].
    destruct (HealthStatusTrackerFacts.stop_fields w)
      as (Hs & He & _ & _ & Hpr & Htm).
    assert (timers (stop w) = []) as Ht'.
    { destruct (timers (stop w)) as [|x l] eqn:Hl; [done|].
      specialize (Htm x ltac:(left)). rewrite Ht in Htm.
      by apply elem_of_nil in Htm. }
    assert (reactions (stop w) = reactions w) as Hr'.
    { unfold stop. simpl. by destruct (healthCheckTimeout w). }
    rewrite Ht', Hpr, Hr', Hp, Hr. auto.
  - intros [= <-]. unfold dispose.
    destruct (HealthStatusTrackerFacts.clearTimeout_fields
                (healthCheckTimeout w) w) as (Hs & He & _ & Hpr & Htm).
    assert (timers (clearTimeout (healthCheckTimeout w) w) = []) as Ht'.
    { destruct (timers (clearTimeout (healthCheckTimeout w) w))
        as [|x l] eqn:Hl; [done|].
      specialize (Htm x ltac:(left)). rewrite Ht in Htm.
      by apply elem_of_nil in Htm. }
    assert (reactions (clearTimeout (healthCheckTimeout w) w) = reactions w)
      as Hr' by (by destruct (healthCheckTimeout w)).
    unfold status_of in *. rewrite Ht', Hpr, Hr', Hp, Hr, He, Hs. auto.
  - intros [= <-]. unfold onChange, status_of in *.
    destruct (ValueEmitter.onChange cb (status w)) as [x c] eqn:Hsub.
    simpl. repeat split; auto.
    assert (c = (ValueEmitter.onChange cb (status w)).2) as ->
      by (by rewrite Hsub).
    unfold ValueEmitter.onChange, ValueEmitter.value in *. simpl.
    by destruct (ValueEmitter.cb_call cb _).
  - rewrite Ht. destruct (decide (h ∈ [])) as [Hin|]; [|discriminate].
    by apply elem_of_nil in Hin.
  - rewrite Hp. discriminate.
  - rewrite Hr. discriminate.
  - destruct (ValueEmitter.internal e) eqn:Hint; [|discriminate].
    destruct (ValueEmitter.step e (status w)) as [c|] eqn:Hstep;
      [|discriminate].
    intros [= <-]. unfold status_of, ValueEmitter.value in *. simpl.
    repeat split; auto.
    rewrite (FanOutProgressFacts.step_currentValue _ _ _ Hstep).
    by destruct e.
Qed.

Lemma silent_exec (es : list Event) (w w' : World) :
  silent w -> Forall (fun e => e <> Start) es ->
  exec (step timeTracker) es w = Some w' -> silent w'.
Proof.
  revert w. induction es as [|e es IH]; simpl; intros w Hinv Hes.
  - intros [= <-]. exact Hinv.
  - inversion_clear Hes as [|? ? He Hes'].
    destruct (step timeTracker e w) as [w1|] eqn:Hstep; [|discriminate].
    apply IH; [|exact Hes']. eapply silent_step; eauto.
Qed.

(** X8: In an execution of a new tracker in which [stop()] has never been
    called while a probe was in flight or its [then] handler was still to
    run, a [stop()] called with no probe in flight and no [then] handler
    to run silences the loop: after it, and until [start()] is called,
    the health status stays absent, no timer is armed, no probe is issued
    and the flag stays down, whatever else happens. *)
Theorem stop_between_probes_silences_the_loop (es0 es : list Event)
    (w w' : World) :
  calm timeTracker es0 createHealthStatusTracker ->
  exec (step timeTracker) es0 createHealthStatusTracker = Some w ->
  probes w = 0 -> reactions w = 0 ->
  Forall (fun e => e <> Start) es ->
  exec (step timeTracker) es (stop w) = Some w' ->
  status_of w' = None /\ timers w' = [] /\ probes w' = 0 /\
  reactions w' = 0 /\ enqueueAgain w' = false.
Proof.
  intros Hcalm Hexec0 Hp Hr Hes Hexec.
  pose proof (tidy_exec es0 _ w tidy_created Hcalm Hexec0) as Htidy.
  assert (Hstop : step timeTracker Stop w = Some (stop w)) by reflexivity.
  pose proof (tidy_step Stop w (stop w) Htidy (conj Hp Hr) Hstop)
    as (Hgo & _ & Hnone).
  destruct (HealthStatusTrackerFacts.stop_fields w)
    as (Hs & He & Hh & _ & _ & _).
  specialize (Hnone Hh).
  destruct (silent_exec es (stop w) w' ltac:(by repeat split) Hes Hexec)
    as (He' & Hgo' & Hs').
  unfold going in Hgo'.
  repeat split; auto; try lia.
  destruct (timers w'); [done|simpl in *; lia].
Qed.

End AnyTimeTracker.

Lemma polling_reached :
  exec (step plainTimeTracker)
    [Start; FireTimeout 0; SettleProbe (Resolves true); RunThen]
    createHealthStatusTracker = Some polling.
Proof. vm_compute. reflexivity. Qed.

Lemma probes_never_overlap_witness :
  probes polling <= 1 /\
  length (timers polling) + probes polling + reactions polling <= 1 /\
  (forall h, h ∈ timers polling -> healthCheckTimeout polling = Some h).
Proof.
  apply (probes_never_overlap plainTimeTracker
           [Start; FireTimeout 0; SettleProbe (Resolves true); RunThen]).
  - vm_compute. tauto.
  - vm_compute. reflexivity.
Defined.

Lemma stop_between_probes_silences_the_loop_witness :
  exists w',
    exec (step plainTimeTracker)
      [Cell ValueEmitter.RunImmediate; Dispose; Stop] (stop polling)
      = Some w' /\
    status_of w' = None /\ timers w' = [] /\ probes w' = 0 /\
    reactions w' = 0 /\ enqueueAgain w' = false.
Proof.
  eexists. split; [vm_compute; reflexivity|].
  apply (stop_between_probes_silences_the_loop plainTimeTracker
           [Start; FireTimeout 0; SettleProbe (Resolves true); RunThen]
           [Cell ValueEmitter.RunImmediate; Dispose; Stop] polling).
  - vm_compute. tauto.
  - vm_compute. reflexivity.
  - reflexivity.
  - reflexivity.
  - repeat constructor; discriminate.
  - vm_compute. reflexivity.
Defined.

End PollLoopTracesFacts.

(** ** More on the instance status tracker *)

Module TrackerLoopFacts.
Import InstanceStatusTracker TrackerLoop.

Local Abbreviation healthy := HealthStatusTracker.healthy.
Local Abbreviation unhealthy := HealthStatusTracker.unhealthy.

Lemma setStatus_fields (s : LocalStackInstanceStatus) (w : World) :
  status_of (setStatus s w) = Some s /\
  containerStatus (setStatus s w) = containerStatus w /\
  healthCheckStatusTracker (setStatus s w) = healthCheckStatusTracker w.
Proof.
  repeat split. apply HealthStatusTrackerFacts.value_setValue.
Qed.

(** X9: The derivation is stable: deriving again while neither the container
    status nor the health status has changed gives the same status, though
    the second derivation sees the first one's result as the previous
    status; [deriveStatus] run twice is [deriveStatus] run once. *)
Theorem deriveStatus_is_stable :
  (forall c h p s,
     getLocalStackStatus c h p = Some s ->
     getLocalStackStatus c h (Some s) = Some s) /\
  (forall w, deriveStatus (deriveStatus w) = deriveStatus w).
Proof.
  assert (Hfix : forall c h p s,
            getLocalStackStatus c h p = Some s ->
            getLocalStackStatus c h (Some s) = Some s).
  { intros [[]|] [[]|] [[]|] s; vm_compute; intros [= <-]; reflexivity. }
  split; [exact Hfix|].
  intros w. unfold deriveStatus at 2.
  destruct (getLocalStackStatus (containerStatus w)
              (HealthStatusTracker.status_of (healthCheckStatusTracker w))
              (ValueEmitter.value (status w))) as [s|] eqn:Hget.
  - destruct (setStatus_fields s w) as (Hs & Hc & Hh).
    unfold deriveStatus. unfold status_of in Hs.
    rewrite Hs, Hc, Hh, (Hfix _ _ _ _ Hget).
    unfold setStatus at 1.
    rewrite ValueEmitterFacts.setValue_same by exact Hs.
    rewrite Hget. by destruct (setStatus s w).
  - unfold deriveStatus. by rewrite Hget.
Qed.

(** X11: A container status the caller forced is not derived from again when
    the container tracker reports that same status: the observer of lines
    56-61 finds nothing changed, so the projected instance status stands. *)
Theorem forced_status_survives_its_confirmation
    (s : LocalStackContainerStatus) (w : World) :
  onContainerChange_derive (Some s) (forceContainerStatus s w)
    = forceContainerStatus s w /\
  status_of (forceContainerStatus c_running w) = Some starting /\
  status_of (forceContainerStatus c_stopping w) = Some stopping.
Proof.
  split; [|apply InstanceStatusTrackerFacts.forceContainerStatus_projects].
  unfold onContainerChange_derive.
  assert (Hc : containerStatus (forceContainerStatus s w) = Some s)
    by (by destruct s).
  rewrite Hc. destruct (decide (Some s <> Some s)); [contradiction|done].
Qed.

Lemma deriveStatus_defined (w : World) :
  is_Some (status_of w) -> is_Some (status_of (deriveStatus w)).
Proof.
  unfold deriveStatus. destruct (getLocalStackStatus _ _ _) as [s|]; [|done].
  intros _. destruct (setStatus_fields s w) as (-> & _). eauto.
Qed.

Lemma foldl_defined {A : Type} (f : World -> A -> World) (l : list A)
    (w : World) :
  (forall w a, is_Some (status_of w) -> is_Some (status_of (f w a))) ->
  is_Some (status_of w) -> is_Some (status_of (foldl f w l)).
Proof.
  intros Hf. revert w. induction l as [|a l IH]; simpl; auto.
Qed.

Section AnyTimeTracker.
Variable timeTracker : HealthStatusTracker.TimeTracker.

Lemma step_defined (e : Event) (w w' : World) :
  step timeTracker e w = Some w' ->
  is_Some (status_of w) -> is_Some (status_of w').
Proof.
  destruct e; simpl.
  - intros [= <-]. unfold onContainerChange_derive.
    destruct (decide _); [|done]. intros H. by apply deriveStatus_defined.
  - intros [= <-]. unfold onContainerChange_start. by destruct (decide _).
  - intros [= <-] H. unfold forceContainerStatus, status_of.
    repeat (destruct (decide _)); simpl;
      rewrite ?HealthStatusTrackerFacts.value_setValue; eauto.
  - destruct (decide _); [discriminate|]. intros [= <-].
    unfold onChange, status_of, ValueEmitter.value.
    destruct (ValueEmitter.onChange cb (status w)) as [x c] eqn:Hsub.
    simpl.
    assert (c = (ValueEmitter.onChange cb (status w)).2) as ->
      by (by rewrite Hsub).
    unfold ValueEmitter.onChange. simpl.
    by destruct (ValueEmitter.cb_call cb _).
  - by intros [= <-].
  - destruct (health_runtime e); [|discriminate].
    destruct (HealthStatusTracker.step _ _ _) as [h|]; [|discriminate].
    simpl. intros [= <-] H. apply foldl_defined; [|exact H].
    intros w0 _. apply deriveStatus_defined.
  - destruct (ValueEmitter.internal e) eqn:Hint; [|discriminate].
    destruct (ValueEmitter.step e (status w)) as [c|] eqn:Hstep;
      [|discriminate].
    simpl. intros [= <-] H. apply foldl_defined.
    + intros w0 v. unfold onStatusChange. by destruct (decide _).
    + unfold status_of, ValueEmitter.value in *. simpl.
      rewrite (FanOutProgressFacts.step_currentValue _ _ _ Hstep).
      by destruct e.
Qed.

Lemma foldl_preserves {A : Type} (P : World -> Prop)
    (f : World -> A -> World) (l : list A) (w : World) :
  (forall w a, P w -> P (f w a)) -> P w -> P (foldl f w l).
Proof.
  intros Hf. revert w. induction l as [|a l IH]; simpl; auto.
Qed.

(** With the container running and no health status, the derivation
    changes nothing (the row "no change" of the table). *)
Lemma deriveStatus_suppressed (w : World) :
  containerStatus w = Some c_running ->
  HealthStatusTracker.status_of (healthCheckStatusTracker w) = None ->
  deriveStatus w = w.
Proof. intros Hc Hs. unfold deriveStatus. by rewrite Hc, Hs. Qed.

Lemma stop_silences (h : HealthStatusTracker.World) :
  HealthStatusTracker.probes h = 0 ->
  HealthStatusTracker.reactions h = 0 ->
  (forall t, t ∈ HealthStatusTracker.timers h ->
     HealthStatusTracker.healthCheckTimeout h = Some t) ->
  PollLoopTraces.silent (HealthStatusTracker.stop h).
Proof.
  intros Hp Hr Htracked.
  destruct (HealthStatusTrackerFacts.stop_fields h) as (Hs & He & _).
  split; [exact He|]. split; [|exact Hs].
  destruct h as [c hct ea t n p rc u]. simpl in *. subst p rc.
  unfold PollLoopTraces.going, HealthStatusTracker.stop. simpl.
  destruct hct as [x|]; simpl.
  - by rewrite PollLoopTracesFacts.tracked_timers_cleared.
  - destruct t as [|y t]; [reflexivity|].
    specialize (Htracked y ltac:(left)). discriminate.
Qed.

(** While the container is running and the poll loop is down, nothing the
    runtime does writes the instance status or wakes the loop. *)
Lemma running_step (e : Event) (w w' : World) :
  runtime e = true ->
  containerStatus w = Some c_running ->
  PollLoopTraces.silent (healthCheckStatusTracker w) ->
  step timeTracker e w = Some w' ->
  containerStatus w' = Some c_running /\
  PollLoopTraces.silent (healthCheckStatusTracker w') /\
  status_of w' = status_of w.
Proof.
  intros Hrt Hc Hsil. destruct e; try discriminate; simpl.
  - (* the health tracker moves on *)
    destruct (health_runtime e) eqn:He; [|discriminate].
    destruct (HealthStatusTracker.step timeTracker e
                (healthCheckStatusTracker w)) as [h|] eqn:Hstep;
      [|discriminate].
    simpl. intros [= <-].
    assert (Hsil' : PollLoopTraces.silent h).
    { apply (PollLoopTracesFacts.silent_step timeTracker e _ _ Hsil);
        [|exact Hstep].
      intros ->. discriminate. }
    apply (foldl_preserves
             (fun w0 => containerStatus w0 = Some c_running /\
                        PollLoopTraces.silent (healthCheckStatusTracker w0) /\
                        status_of w0 = status_of w)).
    + intros w0 _ (Hc0 & Hs0 & Hv0). unfold onHealthChange.
      rewrite deriveStatus_suppressed; [auto|exact Hc0|apply Hs0].
    + auto.
  - (* the fan-out of the instance status moves on *)
    destruct (ValueEmitter.internal e) eqn:Hint; [|discriminate].
    destruct (ValueEmitter.step e (status w)) as [c|] eqn:Hstep;
      [|discriminate].
    simpl. intros [= <-].
    apply (foldl_preserves
             (fun w0 => containerStatus w0 = Some c_running /\
                        PollLoopTraces.silent (healthCheckStatusTracker w0) /\
                        status_of w0 = status_of w)).
    + intros w0 v (Hc0 & Hs0 & Hv0). unfold onStatusChange.
      destruct (decide (v = Some running)); [|auto].
      split; [exact Hc0|]. split; [|exact Hv0]. simpl.
      by apply (PollLoopTracesFacts.silent_step timeTracker
                  HealthStatusTracker.Stop (healthCheckStatusTracker w0)).
    + split; [exact Hc|]. split; [exact Hsil|].
      unfold status_of, ValueEmitter.value. simpl.
      rewrite (FanOutProgressFacts.step_currentValue _ _ _ Hstep).
      by destruct e.
Qed.

Lemma running_exec (es : list Event) (w w' : World) :
  Forall (fun e => runtime e = true) es ->
  containerStatus w = Some c_running ->
  PollLoopTraces.silent (healthCheckStatusTracker w) ->
  exec (step timeTracker) es w = Some w' ->
  containerStatus w' = Some c_running /\
  PollLoopTraces.silent (healthCheckStatusTracker w') /\
  status_of w' = status_of w.
Proof.
  intros Hes. revert w. induction Hes as [|e es He _ IH]; simpl; intros w.
  - intros Hc Hsil [= <-]. auto.
  - intros Hc Hsil.
    destruct (step timeTracker e w) as [w1|] eqn:Hstep; [|discriminate].
    destruct (running_step e w w1 He Hc Hsil Hstep) as (Hc1 & Hsil1 & Hv1).
    intros Hexec. destruct (IH w1 Hc1 Hsil1 Hexec) as (Hc' & Hsil' & Hv').
    split; [exact Hc'|]. split; [exact Hsil'|]. congruence.
Qed.

(** X10: When [running] is fanned out the tracker stops the poll loop, which
    resets the health status to absent.  Take a tracker whose container
    status is running, with no probe in flight, no [then] handler to run
    and no timer armed but the one the poll loop holds the handle of.
    Then, whatever the runtime does after the observer was called with
    [running] (the fan-out of the reset, in which the derivation runs,
    included), the instance status is what it was, the health status
    stays absent and the poll loop stays down. *)
Theorem stopping_the_poll_loop_keeps_running (es : list Event)
    (w w' : World) :
  containerStatus w = Some c_running ->
  HealthStatusTracker.probes (healthCheckStatusTracker w) = 0 ->
  HealthStatusTracker.reactions (healthCheckStatusTracker w) = 0 ->
  (forall t, t ∈ HealthStatusTracker.timers (healthCheckStatusTracker w) ->
     HealthStatusTracker.healthCheckTimeout (healthCheckStatusTracker w)
       = Some t) ->
  Forall (fun e => runtime e = true) es ->
  exec (step timeTracker) es (onStatusChange (Some running) w) = Some w' ->
  status_of w' = status_of w /\
  containerStatus w' = Some c_running /\
  HealthStatusTracker.status_of (healthCheckStatusTracker w') = None /\
  HealthStatusTracker.enqueueAgain (healthCheckStatusTracker w') = false /\
  HealthStatusTracker.timers (healthCheckStatusTracker w') = [] /\
  HealthStatusTracker.probes (healthCheckStatusTracker w') = 0.
Proof.
  intros Hc Hp Hr Htracked Hes Hexec.
  pose proof (stop_silences _ Hp Hr Htracked) as Hsil.
  assert (Hw1 : onStatusChange (Some running) w =
                with_healthCheckStatusTracker
                  (HealthStatusTracker.stop (healthCheckStatusTracker w)) w).
  { unfold onStatusChange. by destruct (decide _). }
  rewrite Hw1 in Hexec.
  destruct (running_exec es
              (with_healthCheckStatusTracker
                 (HealthStatusTracker.stop (healthCheckStatusTracker w)) w)
              w' Hes Hc Hsil Hexec)
    as (Hc' & (He' & Hgo' & Hs') & Hv').
  unfold PollLoopTraces.going in Hgo'.
  split; [exact Hv'|]. split; [exact Hc'|]. split; [exact Hs'|].
  split; [exact He'|]. split; [|lia].
  destruct (HealthStatusTracker.timers (healthCheckStatusTracker w'));
    [reflexivity|simpl in Hgo'; lia].
Qed.

(** X12: The instance status never goes back to undefined.  In every execution
    of the tracker (container observations, forced statuses, the poll
    loop, fan-outs, subscriptions, disposal), once [status()] has returned
    a status it returns one ever after. *)
Theorem status_never_returns_to_undefined (es : list Event)
    (w w' : World) :
  exec (step timeTracker) es w = Some w' ->
  is_Some (status_of w) -> is_Some (status_of w').
Proof.
  revert w. induction es as [|e es IH]; simpl; intros w.
  - by intros [= <-].
  - destruct (step timeTracker e w) as [w1|] eqn:Hstep; [|discriminate].
    intros Hexec H. apply (IH _ Hexec). by apply (step_defined e w).
Qed.

End AnyTimeTracker.

Ltac by_evaluation :=
  repeat lazymatch goal with |- _ /\ _ => split end;
  vm_compute; reflexivity.

(** The container comes up and the service with it: the instance status
    is [starting] once the container is seen running, [running] once the
    probe has succeeded and the health status was fanned out, and when
    [running] is fanned out in turn the poll loop is stopped. *)
Lemma comingUp_runs :
  exists w1 w2,
    exec (step HealthStatusTracker.plainTimeTracker) (take 2 comingUp)
      (forceContainerStatus c_running createLocalStackInstanceStatusTracker)
      = Some w1 /\
    status_of w1 = Some starting /\
    exec (step HealthStatusTracker.plainTimeTracker) (drop 2 comingUp) w1
      = Some w2 /\
    status_of w2 = Some running /\
    HealthStatusTracker.timers (healthCheckStatusTracker w2) = [] /\
    HealthStatusTracker.enqueueAgain (healthCheckStatusTracker w2) = false /\
    HealthStatusTracker.status_of (healthCheckStatusTracker w2) = None.
Proof.
  do 2 eexists. split; [vm_compute; reflexivity|].
  split; [vm_compute; reflexivity|].
  split; [vm_compute; reflexivity|]. by_evaluation.
Qed.

Lemma stopping_the_poll_loop_keeps_running_witness :
  exists w w',
    exec (step HealthStatusTracker.plainTimeTracker) (removelast comingUp)
      (forceContainerStatus c_running createLocalStackInstanceStatusTracker)
      = Some w /\
    exec (step HealthStatusTracker.plainTimeTracker) healthFanOut
      (onStatusChange (Some running) w) = Some w' /\
    status_of w = Some running /\
    last (ValueEmitter.deliveries
            (HealthStatusTracker.status (healthCheckStatusTracker w')))
      = Some (ValueEmitter.delivery ValueEmitter.FanOut None
                healthObserver) /\
    status_of w' = status_of w /\
    containerStatus w' = Some c_running /\
    HealthStatusTracker.status_of (healthCheckStatusTracker w') = None /\
    HealthStatusTracker.enqueueAgain (healthCheckStatusTracker w') = false /\
    HealthStatusTracker.timers (healthCheckStatusTracker w') = [] /\
    HealthStatusTracker.probes (healthCheckStatusTracker w') = 0.
Proof.
  do 2 eexists. split; [vm_compute; reflexivity|].
  split; [vm_compute; reflexivity|].
  split; [vm_compute; reflexivity|].
  split; [vm_compute; reflexivity|].
  apply (stopping_the_poll_loop_keeps_running
           HealthStatusTracker.plainTimeTracker healthFanOut).
  - vm_compute. reflexivity.
  - vm_compute. reflexivity.
  - vm_compute. reflexivity.
  - intros t Ht. apply list_elem_of_singleton in Ht. subst t. reflexivity.
  - repeat constructor.
  - vm_compute. reflexivity.
Defined.

Lemma status_never_returns_to_undefined_witness :
  exists w',
    exec (step HealthStatusTracker.plainTimeTracker) comingUp
      (forceContainerStatus c_running createLocalStackInstanceStatusTracker)
      = Some w' /\
    is_Some (status_of w').
Proof.
  eexists. split; [vm_compute; reflexivity|].
  apply (status_never_returns_to_undefined
           HealthStatusTracker.plainTimeTracker comingUp
           (forceContainerStatus c_running
              createLocalStackInstanceStatusTracker)).
  - vm_compute. reflexivity.
  - vm_compute. eauto.
Defined.

End TrackerLoopFacts.

(** ** The setup status tracker *)

Module SetupStatusTrackerFacts.
Import SetupStatusTracker.

(** X13: [checkStatusNow] tells [undefined] and [setup_required] from
    everything else, and nothing more: a dependency that answers
    [waiting_for_dependencies] counts as [ok].  Taking every such answer
    for [ok] changes nothing in what [checkStatusNow] does to the cell;
    and whenever each of the four dependencies answers [ok] or
    [waiting_for_dependencies], the setup status becomes [ok]. *)
Theorem waiting_counts_as_ok (d : Dependencies) (w : World) :
  status (checkStatusNow (with_dependencies (settled_all d) w))
    = status (checkStatusNow (with_dependencies d w)) /\
  (Forall (fun s => s = Some ok \/ s = Some waiting_for_dependencies)
     (statuses d) ->
   status_of (checkStatusNow (with_dependencies d w)) = Some ok).
Proof.
  split.
  - destruct d as [[[]|] [[]|] [[]|] [[]|]]; reflexivity.
  - intros Hall.
    assert (Hok : checkStatusNow (with_dependencies d w) =
                  with_status
                    (ValueEmitter.setValue (Some ok) (status w))
                    (with_dependencies d w)).
    { destruct d as [c a u l]. unfold statuses in Hall. simpl in Hall.
      inversion_clear Hall as [|? ? Hc Hall1].
      inversion_clear Hall1 as [|? ? Ha Hall2].
      inversion_clear Hall2 as [|? ? Hu Hall3].
      inversion_clear Hall3 as [|? ? Hl _].
      destruct Hc as [-> | ->], Ha as [-> | ->], Hu as [-> | ->],
        Hl as [-> | ->]; reflexivity. }
    rewrite Hok. unfold status_of. simpl.
    apply HealthStatusTrackerFacts.value_setValue.
Qed.

Lemma checkStatusNow_frame (w : World) :
  checkStatusNow w = w \/
  exists s, (s = ok \/ s = setup_required) /\
    checkStatusNow w =
      with_status (ValueEmitter.setValue (Some s) (status w)) w.
Proof.
  unfold checkStatusNow. destruct (existsb _ _); [by left|].
  right. destruct (existsb _ _); eauto.
Qed.

Lemma checkStatus_frame (w : World) :
  status (checkStatus w) = status w /\ timers (checkStatus w) = timers w /\
  timeout (checkStatus w) = timeout w /\
  next_timeout (checkStatus w) = next_timeout w.
Proof.
  unfold checkStatus, OnceImmediate.createOnceImmediate. simpl.
  by destruct (checkStatus_timeout w).
Qed.

(** What a step does to the cell: it leaves the value alone or writes
    [ok] or [setup_required]. *)
Lemma step_status (e : Event) (w w' : World) :
  step e w = Some w' ->
  status_of w' = status_of w \/
  status_of w' = Some ok \/ status_of w' = Some setup_required.
Proof.
  assert (Hcheck : forall w0,
            status_of (checkStatusNow w0) = status_of w0 \/
            status_of (checkStatusNow w0) = Some ok \/
            status_of (checkStatusNow w0) = Some setup_required).
  { intros w0. destruct (checkStatusNow_frame w0) as [->|(s & Hs & ->)];
      [by left|].
    right. unfold status_of. simpl.
    rewrite HealthStatusTrackerFacts.value_setValue.
    destruct Hs as [-> | ->]; auto. }
  destruct e; simpl.
  - intros [= <-]. by left.
  - intros [= <-]. left. unfold status_of.
    by destruct (checkStatus_frame w) as (-> & _).
  - intros [= <-]. apply Hcheck.
  - destruct (decide _); [|discriminate]. intros [= <-]. left.
    unfold startChecking, status_of. simpl.
    by destruct (checkStatus_frame
                   (with_timers (filter (fun h' => h' <> h) (timers w)) w))
      as (-> & _).
  - destruct (immediates w) as [|[] q]; [discriminate|]. intros [= <-].
    unfold OnceImmediate.immediateArrow, unitOfWork. simpl.
    apply (Hcheck (with_immediates q w)).
  - destruct (microtasks w) as [|[|s] q]; [discriminate|..];
      intros [= <-]; by left.
  - intros [= <-]. left. unfold onChange, status_of, ValueEmitter.value.
    destruct (ValueEmitter.onChange cb (status w)) as [x c] eqn:Hsub.
    simpl.
    assert (c = (ValueEmitter.onChange cb (status w)).2) as ->
      by (by rewrite Hsub).
    unfold ValueEmitter.onChange. simpl.
    by destruct (ValueEmitter.cb_call cb _).
  - destruct (ValueEmitter.internal e) eqn:Hint; [|discriminate].
    destruct (ValueEmitter.step e (status w)) as [c|] eqn:Hstep;
      [|discriminate].
    intros [= <-]. left. unfold status_of, ValueEmitter.value. simpl.
    rewrite (FanOutProgressFacts.step_currentValue _ _ _ Hstep).
    by destruct e.
  - intros [= <-]. left. unfold dispose, status_of.
    by destruct (timeout w).
Qed.

(** X14: The setup status is never [waiting_for_dependencies], whatever the
    dependencies answer, and never goes back to undefined: in every
    execution from a state whose setup status is not
    [waiting_for_dependencies], it is undefined, [ok] or [setup_required],
    and once defined it stays defined. *)
Theorem setup_status_is_ok_or_required (es : list Event) (w w' : World) :
  status_of w <> Some waiting_for_dependencies ->
  exec step es w = Some w' ->
  status_of w' <> Some waiting_for_dependencies /\
  (is_Some (status_of w) -> is_Some (status_of w')).
Proof.
  revert w. induction es as [|e es IH]; simpl; intros w Hw.
  - by intros [= <-].
  - destruct (step e w) as [w1|] eqn:Hstep; [|discriminate].
    intros Hexec. apply step_status in Hstep.
    destruct (IH w1) as (Hnever & Hstays); [|exact Hexec|].
    + destruct Hstep as [-> |[-> | ->]]; congruence.
    + split; [exact Hnever|]. intros Hsome. apply Hstays.
      destruct Hstep as [-> |[-> | ->]]; eauto.
Qed.

Lemma alive_step (e : Event) (w w' : World) :
  alive w -> e <> Dispose -> step e w = Some w' -> alive w'.
Proof.
  intros (h0 & Hh & Ht) Hne. unfold alive.
  destruct e; simpl; try contradiction.
  - intros [= <-]. eauto.
  - intros [= <-]. destruct (checkStatus_frame w) as (_ & -> & -> & _).
    eauto.
  - intros [= <-].
    destruct (checkStatusNow_frame w) as [->|(s & _ & ->)]; eauto.
  - destruct (decide _) as [Hin|]; [|discriminate]. intros [= <-].
    rewrite Ht in *. apply list_elem_of_singleton in Hin. subst h.
    unfold startChecking, setTimeout.
    destruct (checkStatus_frame
                (with_timers (filter (fun h' => h' <> h0) [h0]) w))
      as (_ & Ht' & _ & Hn).
    simpl in *. rewrite Ht', Hn. rewrite filter_cons.
    destruct (decide (h0 <> h0)); [contradiction|]. simpl. eauto.
  - destruct (immediates w) as [|[] q]; [discriminate|]. intros [= <-].
    unfold OnceImmediate.immediateArrow, unitOfWork. simpl.
    destruct (checkStatusNow_frame (with_immediates q w))
      as [->|(s & _ & ->)]; eauto.
  - destruct (microtasks w) as [|[|s] q]; [discriminate|..];
      intros [= <-]; eauto.
  - intros [= <-]. unfold onChange.
    destruct (ValueEmitter.onChange cb (status w)). eauto.
  - destruct (ValueEmitter.internal e); [|discriminate].
    destruct (ValueEmitter.step e (status w)); [|discriminate].
    intros [= <-]. eauto.
Qed.

Lemma disposed_step (e : Event) (w w' : World) :
  timers w = [] -> step e w = Some w' -> timers w' = [].
Proof.
  intros Ht. destruct e; simpl.
  - by intros [= <-].
  - intros [= <-]. by destruct (checkStatus_frame w) as (_ & -> & _).
  - intros [= <-].
    by destruct (checkStatusNow_frame w) as [->|(s & _ & ->)].
  - rewrite Ht. destruct (decide (h ∈ [])) as [Hin|]; [|discriminate].
    by apply elem_of_nil in Hin.
  - destruct (immediates w) as [|[] q]; [discriminate|]. intros [= <-].
    unfold OnceImmediate.immediateArrow, unitOfWork. simpl.
    by destruct (checkStatusNow_frame (with_immediates q w))
      as [->|(s & _ & ->)].
  - destruct (microtasks w) as [|[|s] q]; [discriminate|..];
      by intros [= <-].
  - intros [= <-]. unfold onChange.
    by destruct (ValueEmitter.onChange cb (status w)).
  - destruct (ValueEmitter.internal e); [|discriminate].
    destruct (ValueEmitter.step e (status w)); [|discriminate].
    by intros [= <-].
  - intros [= <-]. unfold dispose. destruct (timeout w); simpl; [|done].
    by rewrite Ht.
Qed.

(** X15: The tracker polls until it is disposed of, and not after.  In every
    execution of a new tracker without [dispose()], exactly one timer is
    armed and the tracker holds its handle; [dispose()] disarms it, and
    whatever happens afterwards no timer is armed again. *)
Theorem polls_until_disposed (d : Dependencies) (es1 es2 : list Event)
    (w1 w2 : World) :
  Forall (fun e => e <> Dispose) es1 ->
  exec step es1 (createSetupStatusTracker d) = Some w1 ->
  exec step es2 (dispose w1) = Some w2 ->
  (exists h, timeout w1 = Some h /\ timers w1 = [h]) /\
  timers (dispose w1) = [] /\ timers w2 = [].
Proof.
  intros Hes1 Hexec1 Hexec2.
  assert (Halive : alive w1).
  { clear Hexec2. revert Hexec1.
    assert (Hstart : alive (createSetupStatusTracker d))
      by (exists 0; by split).
    revert Hstart. generalize (createSetupStatusTracker d) as w.
    induction Hes1 as [|e es He _ IH]; simpl; intros w Hw.
    - by intros [= <-].
    - destruct (step e w) as [w'|] eqn:Hstep; [|discriminate].
      apply IH. by apply (alive_step e w). }
  assert (Hdisposed : timers (dispose w1) = []).
  { destruct Halive as (h & Hh & Ht). unfold dispose. rewrite Hh. simpl.
    rewrite Ht, filter_cons. by destruct (decide (h <> h)). }
  split; [exact Halive|]. split; [exact Hdisposed|].
  revert Hexec2 Hdisposed. generalize (dispose w1) as w.
  induction es2 as [|e es IH]; simpl; intros w.
  - by intros [= <-].
  - destruct (step e w) as [w'|] eqn:Hstep; [|discriminate].
    intros Hexec Ht. apply (IH _ Hexec). by apply (disposed_step e w).
Qed.

Lemma waiting_counts_as_ok_witness :
  status_of
    (checkStatusNow
       (with_dependencies waitingDependencies
          (createSetupStatusTracker waitingDependencies))) = Some ok.
Proof.
  apply (waiting_counts_as_ok waitingDependencies
           (createSetupStatusTracker waitingDependencies)).
  unfold statuses. simpl.
  repeat (constructor; [first [by left | by right]|]). constructor.
Defined.

Lemma setup_status_is_ok_or_required_witness :
  exists w',
    exec step
      [RunImmediate; RunMicrotask; RunMicrotask;
       DependenciesChange waitingDependencies; FireTimeout 0; RunImmediate]
      (createSetupStatusTracker (settled_all waitingDependencies))
      = Some w' /\
    status_of w' <> Some waiting_for_dependencies /\
    (is_Some
       (status_of
          (createSetupStatusTracker (settled_all waitingDependencies))) ->
     is_Some (status_of w')).
Proof.
  eexists. split; [vm_compute; reflexivity|].
  apply (setup_status_is_ok_or_required
           [RunImmediate; RunMicrotask; RunMicrotask;
            DependenciesChange waitingDependencies; FireTimeout 0;
            RunImmediate]
           (createSetupStatusTracker (settled_all waitingDependencies))).
  - discriminate.
  - vm_compute. reflexivity.
Defined.

Lemma polls_until_disposed_witness :
  exists w1 w2,
    exec step [RunImmediate; FireTimeout 0; DependencyNotifies]
      (createSetupStatusTracker waitingDependencies) = Some w1 /\
    exec step
      [RunMicrotask; RunMicrotask; DependencyNotifies; RunImmediate; Dispose]
      (dispose w1) = Some w2 /\
    (exists h, timeout w1 = Some h /\ timers w1 = [h]) /\
    timers (dispose w1) = [] /\ timers w2 = [].
Proof.
  do 2 eexists. split; [vm_compute; reflexivity|].
  split; [vm_compute; reflexivity|].
  eapply (polls_until_disposed waitingDependencies
            [RunImmediate; FireTimeout 0; DependencyNotifies]
            [RunMicrotask; RunMicrotask; DependencyNotifies; RunImmediate;
             Dispose]).
  - repeat constructor; discriminate.
  - vm_compute. reflexivity.
  - vm_compute. reflexivity.
Defined.

End SetupStatusTrackerFacts.

(** ** The docker image *)

Module DockerImageFacts.
Import Stdlib.Strings.String DockerImage.
Local Open Scope string_scope.

Lemma startsWith_append (p v : string) : startsWith p (p ++ v) = true.
Proof.
  unfold startsWith. induction p as [|a p IH]; simpl; [by destruct v|].
  destruct (Ascii.ascii_dec a a); [exact IH|contradiction].
Qed.

Lemma slice_append (p v : string) : slice (length p) (p ++ v) = v.
Proof. induction p as [|a p IH]; simpl; [by destruct v|exact IH]. Qed.

Lemma find_first {A : Type} (f : A -> bool) (before after : list A) (x : A) :
  Forall (fun a => f a = false) before -> f x = true ->
  find f (before ++ x :: after)%list = Some x.
Proof.
  induction 1 as [|a l Ha _ IH]; simpl; intros Hx.
  - by rewrite Hx.
  - rewrite Ha. by apply IH.
Qed.

Lemma find_none {A : Type} (f : A -> bool) (l : list A) :
  Forall (fun a => f a = false) l -> find f l = None.
Proof. induction 1 as [|a l Ha _ IH]; simpl; [done|by rewrite Ha]. Qed.

(** X16: The version is read back from the first line of [Config.Env] of the
    first inspected image that starts with [LOCALSTACK_BUILD_VERSION=]:
    it is what follows the prefix, whatever the later lines and the other
    images say.  When nothing follows the prefix there is no version, and
    [docker pull] is spawned exactly then. *)
Theorem build_version_is_read_back (before after : list string)
    (v : string) (rest : list Inspected) :
  Forall (fun line => startsWith BUILD_VERSION line = false) before ->
  let data :=
    ({| Env := before ++ (BUILD_VERSION ++ v)%string :: after |} :: rest)%list in
  getDockerImageSemverVersion (Parsed data) =
    (if String.eqb v "" then None else Some v, false) /\
  updateDockerImage (Parsed data) = String.eqb v "".
Proof.
  intros Hbefore data. subst data.
  unfold updateDockerImage, getDockerImageSemverVersion, imageVersion.
  cbn [Env fst].
  rewrite (find_first _ before after (BUILD_VERSION ++ v) Hbefore
             (startsWith_append BUILD_VERSION v)).
  rewrite (slice_append BUILD_VERSION v).
  by destruct (String.eqb v "").
Qed.

(** X17: Without such a line there is no version and [docker pull] is spawned,
    and without an error being written; the same when nothing was
    inspected.  When the inspection fails in any way, the error is written
    and [docker pull] is spawned. *)
Theorem no_build_version_pulls (env : list string) (rest : list Inspected) :
  Forall (fun line => startsWith BUILD_VERSION line = false) env ->
  getDockerImageSemverVersion (Parsed ({| Env := env |} :: rest)%list)
    = (None, false) /\
  updateDockerImage (Parsed ({| Env := env |} :: rest)%list) = true /\
  getDockerImageSemverVersion (Parsed []%list) = (None, false) /\
  updateDockerImage (Parsed []%list) = true /\
  Forall (fun i => getDockerImageSemverVersion i = (None, true) /\
                   updateDockerImage i = true)
    [ExecFails; NotJson; NotInspectSchema]%list.
Proof.
  intros Henv.
  unfold updateDockerImage, getDockerImageSemverVersion, imageVersion.
  cbn [Env fst]. rewrite (find_none _ env Henv).
  repeat split. repeat constructor.
Qed.

Lemma build_version_is_read_back_witness :
  let data :=
    ({| Env := ["PATH=/usr/bin"; "LOCALSTACK_BUILD_VERSION=4.7.1";
                "LOCALSTACK_BUILD_VERSION=9"]%list |} :: [])%list in
  getDockerImageSemverVersion (Parsed data) = (Some "4.7.1", false) /\
  updateDockerImage (Parsed data) = false.
Proof.
  apply (build_version_is_read_back ["PATH=/usr/bin"]%list
           ["LOCALSTACK_BUILD_VERSION=9"]%list "4.7.1" []%list).
  repeat constructor.
Defined.

Lemma no_build_version_pulls_witness :
  getDockerImageSemverVersion
    (Parsed ({| Env := ["PATH=/usr/bin"; "HOME=/root"]%list |} :: [])%list)
    = (None, false) /\
  updateDockerImage
    (Parsed ({| Env := ["PATH=/usr/bin"; "HOME=/root"]%list |} :: [])%list)
    = true /\
  getDockerImageSemverVersion (Parsed []%list) = (None, false) /\
  updateDockerImage (Parsed []%list) = true /\
  Forall (fun i => getDockerImageSemverVersion i = (None, true) /\
                   updateDockerImage i = true)
    [ExecFails; NotJson; NotInspectSchema]%list.
Proof.
  apply (no_build_version_pulls ["PATH=/usr/bin"; "HOME=/root"]%list []%list).
  repeat constructor.
Defined.

End DockerImageFacts.

(** ** The file status tracker *)

Module FileStatusTrackerFacts.
Import FileStatusTracker.

Section AnyCheck.
Variable check : nat -> CheckResult.

Lemma requests_cons (e : Event) (es : list Event) :
  requests (e :: es) =
  (match e with FileEvent | Check => 1 | _ => 0 end) + requests es.
Proof. by destruct e. Qed.

Lemma flag_tells_step (e : Event) (w w' : World) :
  flag_tells w -> step check e w = Some w' ->
  flag_tells w' /\
  checks w' + length (immediates w') <=
  checks w + length (immediates w) +
  match e with FileEvent | Check => 1 | _ => 0 end.
Proof.
  unfold flag_tells, in_flight. destruct e.
  - destruct w as [c t imm mic aw k u]. simpl.
    intros Hinv [= <-]. unfold updateStatus, OnceImmediate.createOnceImmediate.
    simpl. destruct t; simpl in *; rewrite ?length_app; simpl; split; lia.
  - destruct w as [c t imm mic aw k u]. simpl.
    intros Hinv [= <-]. unfold updateStatus, OnceImmediate.createOnceImmediate.
    simpl. destruct t; simpl in *; rewrite ?length_app; simpl; split; lia.
  - destruct w as [c t imm mic aw k u]. simpl.
    destruct imm as [|[] q]; [discriminate|]. simpl.
    intros Hinv [= <-].
    destruct t as [i|]; [|lia].
    unfold OnceImmediate.immediateArrow, unitOfWork. simpl.
    destruct (check k); simpl; rewrite ?length_app; simpl;
      destruct aw; simpl in *; split; lia.
  - destruct w as [c t imm mic aw k u]. simpl.
    destruct mic as [|[v|s] q]; [discriminate|..]; intros Hinv [= <-];
      destruct t; simpl in *; rewrite ?length_app; simpl in *;
      try destruct s; simpl; split; lia.
  - destruct w as [c t imm mic aw k u]. simpl.
    destruct aw; [|discriminate]. intros Hinv [= <-].
    destruct r; destruct t; simpl in *; rewrite ?length_app; simpl;
      split; lia.
  - intros Hinv [= <-]. unfold step, onChange.
    destruct (ValueEmitter.onChange cb (status w)). simpl.
    split; [exact Hinv|lia].
  - simpl. destruct (ValueEmitter.internal e); [|discriminate].
    destruct (ValueEmitter.step e (status w)); [|discriminate].
    intros Hinv [= <-]. simpl. split; [exact Hinv|lia].
Qed.

Lemma flag_tells_exec (es : list Event) (w w' : World) :
  flag_tells w -> exec (step check) es w = Some w' ->
  flag_tells w' /\
  checks w' + length (immediates w') <=
  checks w + length (immediates w) + requests es.
Proof.
  revert w. induction es as [|e es IH]; cbn [exec]; intros w Hinv.
  - intros [= <-]. simpl. split; [exact Hinv|lia].
  - destruct (step check e w) as [w1|] eqn:Hstep; [|discriminate].
    intros Hexec. rewrite requests_cons.
    destruct (flag_tells_step _ _ _ Hinv Hstep) as (Hinv1 & Hle1).
    destruct (IH _ Hinv1 Hexec) as (Hinv' & Hle').
    split; [exact Hinv'|lia].
Qed.

(** X18: In every execution of a new file status tracker, whatever [check]
    does (return, throw, resolve, reject): the flag of [updateStatus] is
    set exactly while one check is scheduled or running, so checks never
    overlap and the flag is never left set with nothing to clear it; and
    [check] has been called at most once for the tracker's creation plus
    once for each file event or [check()] call. *)
Theorem file_checks_coalesce (es : list Event) (w : World) :
  exec (step check) es createFileStatusTracker = Some w ->
  (updateStatus_timeout w = None /\ in_flight w = 0 \/
   updateStatus_timeout w = Some ImmediateHandle /\ in_flight w = 1) /\
  checks w + length (immediates w) <= 1 + requests es.
Proof.
  intros Hexec.
  destruct (flag_tells_exec es createFileStatusTracker w
              ltac:(reflexivity) Hexec) as (Hinv & Hle).
  simpl in Hle. split; [|lia].
  unfold flag_tells in Hinv.
  destruct (updateStatus_timeout w) as [[]|]; auto.
Qed.

(** X19: A [check] that throws does not stop the tracker.  In every execution
    of a new tracker, when a check is scheduled and the call of [check]
    throws: the status is left as it was, the flag is cleared by the
    [finally] handler (the rejection stays unhandled), and the next file
    event schedules a new check. *)
Theorem throwing_check_does_not_stop_the_tracker (es : list Event)
    (w : World) :
  exec (step check) es createFileStatusTracker = Some w ->
  immediates w <> [] ->
  check (checks w) = CheckThrows ->
  exists w1 w2,
    exec (step check) [RunImmediate; RunMicrotask] w = Some w1 /\
    status w1 = status w /\
    updateStatus_timeout w1 = None /\
    unhandled w1 = S (unhandled w) /\
    step check FileEvent w1 = Some w2 /\
    immediates w2 = [UpdateArrow].
Proof.
  intros Hexec Himm Hthrows.
  destruct (flag_tells_exec es createFileStatusTracker w
              ltac:(reflexivity) Hexec) as (Hinv & _).
  destruct w as [c t imm mic aw k u]. unfold flag_tells, in_flight in Hinv.
  simpl in *.
  destruct imm as [|[] q]; [contradiction|].
  destruct t as [i|]; simpl in Hinv; [|lia].
  assert (q = []) as -> by (destruct q; [done|simpl in *; lia]).
  assert (mic = []) as -> by (destruct mic; [done|simpl in *; lia]).
  unfold OnceImmediate.immediateArrow, unitOfWork. simpl.
  rewrite Hthrows. simpl. do 2 eexists. repeat split.
Qed.

End AnyCheck.

Lemma file_checks_coalesce_witness :
  exists w,
    exec (step failingOnce)
      [FileEvent; FileEvent; RunImmediate; Check; RunMicrotask; FileEvent]
      createFileStatusTracker = Some w /\
    (updateStatus_timeout w = None /\ in_flight w = 0 \/
     updateStatus_timeout w = Some ImmediateHandle /\ in_flight w = 1) /\
    checks w + length (immediates w) <= 1 + 4.
Proof.
  eexists. split; [vm_compute; reflexivity|].
  apply (file_checks_coalesce failingOnce
           [FileEvent; FileEvent; RunImmediate; Check; RunMicrotask;
            FileEvent]).
  vm_compute. reflexivity.
Defined.

Lemma throwing_check_does_not_stop_the_tracker_witness :
  exists w1 w2,
    exec (step failingOnce) [RunImmediate; RunMicrotask]
      createFileStatusTracker = Some w1 /\
    status w1 = status createFileStatusTracker /\
    updateStatus_timeout w1 = None /\
    unhandled w1 = S (unhandled createFileStatusTracker) /\
    step failingOnce FileEvent w1 = Some w2 /\
    immediates w2 = [UpdateArrow].
Proof.
  apply (throwing_check_does_not_stop_the_tracker failingOnce []).
  - reflexivity.
  - discriminate.
  - reflexivity.
Defined.

End FileStatusTrackerFacts.

(** ** The status bar plugin *)

Module StatusBarFacts.
Import Stdlib.Strings.String.
Import StatusBar.
Local Open Scope string_scope.

(** X20: Whatever the trackers answer, the command list never offers both
    "Start LocalStack" and "Stop LocalStack", offers neither unless the
    CLI status is [ok], always ends with "View Logs", always starts with
    the "Configure" separator, and has between three and five entries. *)
Theorem start_and_stop_are_never_both_offered (r : Readings) :
  offers "localstack.start" (getCommands r) &&
    offers "localstack.stop" (getCommands r) = false /\
  (offers "localstack.start" (getCommands r) ||
     offers "localstack.stop" (getCommands r) = true ->
   cliStatus r = Some SetupStatusTracker.ok) /\
  last (getCommands r) =
    Some {| label := "View Logs"; command := "localstack.viewLogs";
            separator := false |} /\
  head (getCommands r) =
    Some {| label := "Configure"; command := ""; separator := true |} /\
  (3 <= List.length (getCommands r) <= 5)%nat.
Proof.
  destruct r as [[[]|] [[]|] [[]|] [[]|]];
    (split; [reflexivity|]);
    (split; [first [reflexivity | discriminate]|]);
    (split; [reflexivity|]); (split; [reflexivity|]);
    vm_compute; split; repeat constructor.
Qed.

(** X21: The status bar item is left alone until all three statuses are known.
    Once they are, the error background and the error icon always go
    together (both exactly when setup is required), the spinner shows
    only while the instance is starting or stopping, and the text names
    the instance status exactly when the CLI status is [ok]. *)
Theorem status_bar_is_consistent (r : Readings) (item : StatusBarItem) :
  (bool_decide (setupStatus r = None) ||
   bool_decide (localStackStatus r = None) ||
   bool_decide (cliStatus r = None) = true ->
   renderStatusBar r item = item) /\
  forall setup ls cli,
    setupStatus r = Some setup -> localStackStatus r = Some ls ->
    cliStatus r = Some cli ->
    let item' := renderStatusBar r item in
    (backgroundColor item' = Some "statusBarItem.errorBackground" <->
     prefix "$(error) " (text item') = true) /\
    (backgroundColor item' = Some "statusBarItem.errorBackground" <->
     setup = SetupStatusTracker.setup_required) /\
    (prefix "$(sync~spin) " (text item') = true ->
     ls = InstanceStatusTracker.starting \/
     ls = InstanceStatusTracker.stopping) /\
    (exists icon,
       text item' = icon ++ " LocalStack: " ++
         (if decide (cli = SetupStatusTracker.ok) then statusName ls
          else if default false (cliOutdated r) then "CLI outdated"
          else "CLI not installed")).
Proof.
  split.
  - destruct r as [[s|] [l|] [c|] o]; simpl; try reflexivity; discriminate.
  - intros setup ls cli Hs Hl Hc. destruct r as [s l c o]. simpl in *.
    subst. unfold renderStatusBar. cbn [setupStatus localStackStatus
      cliStatus StatusBar.cliOutdated].
    split; [destruct setup, ls; vm_compute; split; congruence|].
    split; [destruct setup; vm_compute; split; congruence|].
    split.
    + destruct setup, ls; vm_compute; try discriminate; auto.
    + eexists. unfold getOverallStatusText. reflexivity.
Qed.

Lemma status_bar_is_consistent_witness :
  let r := {| setupStatus := Some SetupStatusTracker.ok;
              localStackStatus := Some InstanceStatusTracker.starting;
              cliStatus := Some SetupStatusTracker.ok;
              cliOutdated := Some false |} in
  let item := {| bar_command := None; backgroundColor := None; text := "";
                 tooltip := None |} in
  text (renderStatusBar r item) = "$(sync~spin) LocalStack: starting" /\
  backgroundColor (renderStatusBar r item) = None /\
  prefix "$(sync~spin) " (text (renderStatusBar r item)) = true /\
  (InstanceStatusTracker.starting = InstanceStatusTracker.starting \/
   InstanceStatusTracker.starting = InstanceStatusTracker.stopping).
Proof.
  intros r item.
  destruct (status_bar_is_consistent r item) as [_ H].
  destruct (H SetupStatusTracker.ok InstanceStatusTracker.starting
              SetupStatusTracker.ok eq_refl eq_refl eq_refl)
    as (_ & _ & Hspin & _).
  split; [reflexivity|]. split; [reflexivity|]. split; [reflexivity|].
  apply Hspin. reflexivity.
Defined.

End StatusBarFacts.
